(** * asyncnsq: the framed codec, the consumer and the lookupd client

    A shallow embedding of [asyncnsq/tcp/consts.py], [asyncnsq/tcp/protocol.py],
    [asyncnsq/tcp/reader.py] and [asyncnsq/http/base.py].

    Python values are modelled as follows.
    - [bytes] and [bytearray] are lists of [byte]; [str] is a list of Unicode
      code points when it comes out of [bytes.decode], and a [string] where
      the source writes a literal.
    - [int] is [Z]; the fixed-width fields of [struct] are decoded and
      encoded explicitly.
    - A raised exception is the [Raise] case of [result]; a method that
      mutates [self] returns the new object next to its result. *)

From Stdlib Require Import ZArith Lia List Bool.
From Stdlib Require Import Init.Byte Strings.Byte Strings.String Strings.Ascii.
From stdpp Require Import base option list gmap strings pretty.

Import ListNotations.
Local Open Scope Z_scope.

(** ** Python values shared by the modules *)

Definition bytes := list byte.

(** A decoded [str]: the list of its code points. *)
Definition str := list Z.

Inductive exn : Type :=
| struct_error (msg : string)
| ValueError (msg : string)
| UnicodeDecodeError
| TypeError (msg : string)
| UnboundLocalError (msg : string)
| ProtocolError (msg : string).

Inductive result (A : Type) : Type :=
| Ok (a : A)
| Raise (e : exn).

Arguments Ok {A} a.
Arguments Raise {A} e.

Definition bind {A B} (r : result A) (k : A -> result B) : result B :=
  match r with
  | Ok a => k a
  | Raise e => Raise e
  end.

Notation "'let*' x ':=' r 'in' k" := (bind r (fun x => k))
  (at level 10, x pattern, r at level 100, k at level 200).

Definition byte_val (b : byte) : Z := Z.of_N (Byte.to_N b).

Definition byte_of_Z (z : Z) : byte :=
  match Byte.of_N (Z.to_N (z mod 256)) with
  | Some b => b
  | None => x00
  end.

(** [==] on [bytes] *)
Definition bytes_eqb (a b : bytes) : bool :=
  bool_decide (map byte_val a = map byte_val b).

(** *** Slicing

    [l[i:j]] and [l[i:]] with Python's rules: a negative index counts from the
    end, every index is clamped to the sequence, an empty range gives the
    empty sequence. *)

Definition slice_index (len k : Z) : Z :=
  if k <? 0 then Z.max (k + len) 0 else Z.min k len.

Definition slice {A} (l : list A) (i j : Z) : list A :=
  let len := Z.of_nat (length l) in
  let lo := slice_index len i in
  let hi := slice_index len j in
  firstn (Z.to_nat (hi - lo)) (skipn (Z.to_nat lo) l).

Definition slice_from {A} (l : list A) (i : Z) : list A :=
  skipn (Z.to_nat (slice_index (Z.of_nat (length l)) i)) l.

(** *** [struct]: big-endian fixed-width integers *)

Definition be_unsigned (bs : bytes) : Z :=
  fold_left (fun acc b => acc * 256 + byte_val b) bs 0.

Definition be_signed (bs : bytes) : Z :=
  let u := be_unsigned bs in
  let w := 8 * Z.of_nat (length bs) in
  if u <? 2 ^ (w - 1) then u else u - 2 ^ w.

Fixpoint be_bytes (width : nat) (n : Z) : bytes :=
  match width with
  | O => []
  | S w => byte_of_Z (Z.land (Z.shiftr n (8 * Z.of_nat w)) 255) :: be_bytes w n
  end.

(** [struct.unpack('>l', data)[0]]: exactly four bytes, read as a signed
    32-bit integer. *)
Definition unpack_l (data : bytes) : result Z :=
  if (length data =? 4)%nat then Ok (be_signed data)
  else Raise (struct_error "unpack requires a buffer of 4 bytes").

(** [struct.pack('>l', n)]: [n] must fit a signed 32-bit integer. *)
Definition pack_l (n : Z) : result bytes :=
  if (- 2 ^ 31 <=? n) && (n <? 2 ^ 31) then Ok (be_bytes 4 n)
  else Raise (struct_error
    "'l' format requires -2147483648 <= number <= 2147483647").

(** *** [bytes.decode('utf-8')]

    Strict decoding: the well-formed byte sequences of the Unicode standard,
    without overlong forms, surrogates or code points above U+10FFFF. *)

Definition in_range (lo hi : Z) (b : byte) : bool :=
  (lo <=? byte_val b) && (byte_val b <=? hi).

Definition cont (b : byte) : Z := byte_val b - 128.

Fixpoint utf8_decode (s : bytes) : option str :=
  match s with
  | [] => Some []
  | b1 :: r1 =>
    if in_range 0 127 b1 then
      option_map (cons (byte_val b1)) (utf8_decode r1)
    else
      match r1 with
      | [] => None
      | b2 :: r2 =>
        if in_range 194 223 b1 then
          if in_range 128 191 b2 then
            option_map (cons ((byte_val b1 - 192) * 64 + cont b2))
                       (utf8_decode r2)
          else None
        else
          match r2 with
          | [] => None
          | b3 :: r3 =>
            if in_range 224 239 b1 then
              if in_range (if byte_val b1 =? 224 then 160 else 128)
                          (if byte_val b1 =? 237 then 159 else 191) b2
                 && in_range 128 191 b3 then
                option_map
                  (cons ((byte_val b1 - 224) * 4096 + cont b2 * 64 + cont b3))
                  (utf8_decode r3)
              else None
            else
              match r3 with
              | [] => None
              | b4 :: r4 =>
                if in_range 240 244 b1 then
                  if in_range (if byte_val b1 =? 240 then 144 else 128)
                              (if byte_val b1 =? 244 then 143 else 191) b2
                     && in_range 128 191 b3 && in_range 128 191 b4 then
                    option_map
                      (cons ((byte_val b1 - 240) * 262144 + cont b2 * 4096
                             + cont b3 * 64 + cont b4))
                      (utf8_decode r4)
                  else None
                else None
              end
          end
      end
  end.

Definition decode_utf8 (s : bytes) : result str :=
  match utf8_decode s with
  | Some t => Ok t
  | None => Raise UnicodeDecodeError
  end.

(** The code points of a literal, for comparison with decoded text. *)
Definition str_of_string (s : string) : str :=
  map (fun a => Z.of_N (N_of_ascii a)) (list_ascii_of_string s).

Definition bytes_of_string (s : string) : bytes := list_byte_of_string s.

(** *** [bytes.split(maxsplit=n)] with no separator

    Runs of ASCII whitespace separate the words; leading whitespace is
    dropped; after [maxsplit] words the remainder, stripped on the left, is
    the last element when it is not empty. *)

Definition isspace (b : byte) : bool :=
  let v := byte_val b in
  (v =? 32) || ((9 <=? v) && (v <=? 13)).

(** No byte of [s] is whitespace. *)
Definition no_space (s : bytes) : bool :=
  forallb (fun c => negb (isspace c)) s.

Fixpoint lstrip (s : bytes) : bytes :=
  match s with
  | [] => []
  | b :: t => if isspace b then lstrip t else s
  end.

Fixpoint word (s : bytes) : bytes * bytes :=
  match s with
  | [] => ([], [])
  | b :: t => if isspace b then ([], s) else let (w, r) := word t in (b :: w, r)
  end.

Fixpoint split (maxsplit : nat) (s : bytes) : list bytes :=
  match lstrip s with
  | [] => []
  | r =>
    match maxsplit with
    | O => [r]
    | S m => let (w, rest) := word r in w :: split m rest
    end
  end.

(** ** Python's [Enum]

    A class body is an ordered list of [name = value] lines.  The first name
    bound to a value creates a member; a later name bound to a value that
    already has a member becomes another name of that member (an alias).
    Members are compared by identity. *)

Module enum.

Record member : Type := Member { name : string; value : Z }.

Record cls : Type := Cls {
  cls_name : string;
  members : list member;
  member_map : gmap string member
}.

Definition eqb (a b : member) : bool :=
  String.eqb (name a) (name b) && (value a =? value b).

Definition by_value (ms : list member) (v : Z) : option member :=
  find (fun m => value m =? v) ms.

Definition define (c : cls) (line : string * Z) : cls :=
  let (n, v) := line in
  match by_value (members c) v with
  | Some m => Cls (cls_name c) (members c) (<[n := m]> (member_map c))
  | None =>
    let m := Member n v in
    Cls (cls_name c) (members c ++ [m]) (<[n := m]> (member_map c))
  end.

Definition make (nm : string) (body : list (string * Z)) : cls :=
  fold_left define body (Cls nm [] ∅).

(** [C.NAME] *)
Definition attr (c : cls) (n : string) : member :=
  default (Member n 0) (member_map c !! n).

(** [C(v)] *)
Definition call (c : cls) (v : Z) : result member :=
  match by_value (members c) v with
  | Some m => Ok m
  | None => Raise (ValueError (pretty v ++ " is not a valid " ++ cls_name c))
  end.

(** [str(member)] *)
Definition to_string (c : cls) (m : member) : string :=
  cls_name c ++ "." ++ name m.

End enum.

(** ** asyncnsq/tcp/consts.py *)

Module consts.

Definition NL : bytes := [x0a].
Definition DATA_SIZE : Z := 4.
Definition FRAME_SIZE : Z := 4.
Definition HEADER_SIZE : Z := DATA_SIZE + FRAME_SIZE.

Definition TIMESTAMP_SIZE : Z := 8.
Definition ATTEMPTS_SIZE : Z := 2.
Definition MSG_ID_SIZE : Z := 16.
Definition MSG_HEADER : Z := TIMESTAMP_SIZE + ATTEMPTS_SIZE + MSG_ID_SIZE.

Module ConnectionStatus.

Definition class : enum.cls :=
  enum.make "ConnectionStatus"
    [("CLOSED", 0); ("CLOSING", 0); ("INIT", 1); ("CONNECTED", 2);
     ("SUBSCRIBED", 3); ("RECONNECTING", 4)]%string.

Definition CLOSED : enum.member := enum.attr class "CLOSED".
Definition CLOSING : enum.member := enum.attr class "CLOSING".
Definition INIT : enum.member := enum.attr class "INIT".
Definition CONNECTED : enum.member := enum.attr class "CONNECTED".
Definition SUBSCRIBED : enum.member := enum.attr class "SUBSCRIBED".
Definition RECONNECTING : enum.member := enum.attr class "RECONNECTING".

Definition is_closed (self : enum.member) : bool := enum.eqb self CLOSED.
Definition is_closing (self : enum.member) : bool := enum.eqb self CLOSING.
Definition is_init (self : enum.member) : bool := enum.eqb self INIT.
Definition is_connected (self : enum.member) : bool :=
  enum.eqb self CONNECTED.
Definition is_subscribed (self : enum.member) : bool :=
  enum.eqb self SUBSCRIBED.
Definition is_reconnecting (self : enum.member) : bool :=
  enum.eqb self RECONNECTING.

(** [__bool__] *)
Definition to_bool (self : enum.member) : bool :=
  negb (is_closed self) && negb (is_closing self) && negb (is_init self).

End ConnectionStatus.

Module FrameType.

Definition class : enum.cls :=
  enum.make "FrameType"
    [("RESPONSE", 0); ("ERROR", 1); ("MESSAGE", 2)]%string.

Definition RESPONSE : enum.member := enum.attr class "RESPONSE".
Definition ERROR : enum.member := enum.attr class "ERROR".
Definition MESSAGE : enum.member := enum.attr class "MESSAGE".

Definition is_response (self : enum.member) : bool :=
  enum.eqb self RESPONSE.
Definition is_error (self : enum.member) : bool := enum.eqb self ERROR.
Definition is_message (self : enum.member) : bool :=
  enum.eqb self MESSAGE.

End FrameType.

Module NSQCommands.
Definition OK : bytes := bytes_of_string "OK".
Definition MPUB : bytes := bytes_of_string "MPUB".
Definition SUB : bytes := bytes_of_string "SUB".
End NSQCommands.

End consts.

(** ** asyncnsq/tcp/protocol.py *)

Module protocol.

Import consts.

(** The three schema classes.  [NSQErrorSchema] and [NSQMessageSchema] extend
    [NSQResponseSchema] with [code], and with [timestamp], [attempts] and
    [id]. *)
Inductive schema : Type :=
| NSQResponseSchema (body : bytes) (frame_type : enum.member)
| NSQErrorSchema (code : str) (body : bytes) (frame_type : enum.member)
| NSQMessageSchema (timestamp attempts : Z) (id : str) (body : bytes)
    (frame_type : enum.member).

Definition body (s : schema) : bytes :=
  match s with
  | NSQResponseSchema b _ => b
  | NSQErrorSchema _ b _ => b
  | NSQMessageSchema _ _ _ b _ => b
  end.

Definition frame_type (s : schema) : enum.member :=
  match s with
  | NSQResponseSchema _ t => t
  | NSQErrorSchema _ _ t => t
  | NSQMessageSchema _ _ _ _ t => t
  end.

Definition is_ok (s : schema) : bool :=
  bytes_eqb (body s) NSQCommands.OK.

Definition is_heartbeat (s : schema) : bool :=
  bytes_eqb (body s) (bytes_of_string "_heartbeat_").

(** [NSQErrorSchema.__init__]: [code.decode('utf-8')] may raise. *)
Definition new_NSQErrorSchema (code body : bytes) (frame_type : enum.member)
  : result schema :=
  let* c := decode_utf8 code in
  Ok (NSQErrorSchema c body frame_type).

(** [NSQMessageSchema.__init__]: [id_.decode('utf-8')] may raise. *)
Definition new_NSQMessageSchema (timestamp attempts : Z) (id_ body : bytes)
    (frame_type : enum.member) : result schema :=
  let* i := decode_utf8 id_ in
  Ok (NSQMessageSchema timestamp attempts i body frame_type).

(** [class Reader]: the buffer, and the size prefix once it has been read. *)
Record Reader : Type := mkReader {
  _buffer : bytes;
  _is_header : bool;
  _payload_size : Z
}.

Definition feed (self : Reader) (chunk : bytes) : Reader :=
  match chunk with
  | [] => self
  | _ => mkReader (_buffer self ++ chunk) (_is_header self) (_payload_size self)
  end.

(** [Reader(buffer)] *)
Definition new (buffer : option bytes) : Reader :=
  let self := mkReader [] false 0 in
  match buffer with
  | Some b => feed self b
  | None => self
  end.

Definition _unpack_response (self : Reader) (payload_size : Z) : bytes :=
  let start := HEADER_SIZE in
  let end_ := DATA_SIZE + payload_size in
  slice (_buffer self) start end_.

Definition _unpack_error (self : Reader) (payload_size : Z)
  : result (bytes * bytes) :=
  let error := _unpack_response self payload_size in
  match split 1 error with
  | [code; msg] => Ok (code, msg)
  | parts =>
    Raise (ValueError ("not enough values to unpack (expected 2, got "
                       ++ pretty (length parts) ++ ")"))
  end.

(** [struct.unpack('>qh16s{n}s', data)]: a signed 64-bit integer, a signed
    16-bit integer, sixteen bytes and [n] bytes.  A negative [n] gives a
    format that [struct] rejects; [data] must have the length of the
    format. *)
Definition unpack_qh16s_s (n : Z) (data : bytes)
  : result (Z * Z * bytes * bytes) :=
  if n <? 0 then Raise (struct_error "bad char in struct format")
  else if negb (Z.of_nat (length data) =? MSG_HEADER + n) then
    Raise (struct_error ("unpack requires a buffer of "
                         ++ pretty (MSG_HEADER + n) ++ " bytes"))
  else
    Ok (be_signed (slice data 0 8), be_signed (slice data 8 10),
        slice data 10 26, slice data 26 (26 + n)).

Definition _unpack_message (self : Reader) (payload_size : Z)
  : result (Z * Z * bytes * bytes) :=
  let start := HEADER_SIZE in
  let end_ := DATA_SIZE + payload_size in
  let msg_len := end_ - start - MSG_HEADER in
  unpack_qh16s_s msg_len (slice (_buffer self) start end_).

Definition _parse_payload (self : Reader) (frame_type : enum.member)
    (payload_size : Z) : result schema :=
  if enum.eqb frame_type FrameType.RESPONSE then
    Ok (NSQResponseSchema (_unpack_response self payload_size) frame_type)
  else if enum.eqb frame_type FrameType.ERROR then
    let* args := _unpack_error self payload_size in
    let '(code, msg) := args in
    new_NSQErrorSchema code msg frame_type
  else if enum.eqb frame_type FrameType.MESSAGE then
    let* args := _unpack_message self payload_size in
    let '(timestamp, attempts, id_, body) := args in
    new_NSQMessageSchema timestamp attempts id_ body frame_type
  else
    Raise (ProtocolError ("Got unexpected FrameType: "
                          ++ enum.to_string FrameType.class frame_type)).

(** [Reader.get]: the object after the call, and [None], a schema or the
    exception raised.  An exception leaves the assignments made before it. *)
Definition get (self : Reader) : Reader * result (option schema) :=
  let buffer_size := Z.of_nat (length (_buffer self)) in
  let header :=
    if negb (_is_header self) && (DATA_SIZE <=? buffer_size) then
      let* size := unpack_l (slice (_buffer self) 0 DATA_SIZE) in
      Ok (mkReader (_buffer self) true size)
    else Ok self in
  match header with
  | Raise e => (self, Raise e)
  | Ok self =>
    if _is_header self && (DATA_SIZE + _payload_size self <=? buffer_size) then
      let start := DATA_SIZE in
      let end_ := HEADER_SIZE in
      let parsed :=
        let* v := unpack_l (slice (_buffer self) start end_) in
        let* frame_type := enum.call FrameType.class v in
        _parse_payload self frame_type (_payload_size self) in
      match parsed with
      | Raise e => (self, Raise e)
      | Ok resp =>
        (mkReader (slice_from (_buffer self) (start + _payload_size self))
                  false 0,
         Ok (Some resp))
      end
    else (self, Ok None)
  end.

(** *** Reading a stream

    The way a connection uses the codec: after each chunk it feeds, it calls
    [get] until [get] returns [None].  [drain] makes at most [fuel] calls;
    [Unfinished] is the case where the last of them still returned a
    frame. *)

Inductive ending : Type :=
| Drained
| Failed (e : exn)
| Unfinished.

Fixpoint drain (fuel : nat) (self : Reader) : Reader * list schema * ending :=
  match fuel with
  | O => (self, [], Unfinished)
  | S n =>
    match get self with
    | (self', Ok None) => (self', [], Drained)
    | (self', Ok (Some resp)) =>
      let '(r, fs, e) := drain n self' in (r, resp :: fs, e)
    | (self', Raise e) => (self', [], Failed e)
    end
  end.

Definition get_all (self : Reader) : Reader * list schema * ending :=
  drain (S (length (_buffer self))) self.

(** Feed the chunks one by one, and call [get] until [None] after each. *)
Fixpoint read_chunks (self : Reader) (chunks : list bytes)
  : Reader * list schema * ending :=
  match chunks with
  | [] => (self, [], Drained)
  | c :: cs =>
    let '(r, fs, e) := get_all (feed self c) in
    match e with
    | Drained => let '(r', fs', e') := read_chunks r cs in (r', fs ++ fs', e')
    | _ => (r, fs, e)
    end
  end.

(** What a reading produced: the frames and how it ended. *)
Definition produced (x : Reader * list schema * ending)
  : list schema * ending :=
  (snd (fst x), snd x).

(** Feed every chunk, and call [get] only afterwards. *)
Definition feed_all (self : Reader) (chunks : list bytes) : Reader :=
  fold_left feed chunks self.

(** *** The framing of a buffer *)

(** The size prefix of a buffer that holds one. *)
Definition size_field (b : bytes) : Z := be_signed (firstn 4 b).

(** The states the codec can be in: when the size prefix has been read,
    [_payload_size] is the prefix of the buffer. *)
Definition inv (self : Reader) : Prop :=
  _is_header self = true ->
  (4 <= length (_buffer self))%nat
  /\ _payload_size self = size_field (_buffer self).

(** The buffer holds a whole frame, type field included. *)
Definition complete (b : bytes) : Prop :=
  4 <= size_field b /\ 4 + size_field b <= Z.of_nat (length b).

(** The buffer does not hold its first frame yet. *)
Definition incomplete (b : bytes) : Prop :=
  (length b < 4)%nat \/ Z.of_nat (length b) < 4 + size_field b.

(** A call of [get] that returns a frame drops the four bytes of the size
    prefix and the bytes the prefix counts, no more and no less. *)
Definition consumes_whole_frame (self : Reader) : Prop :=
  forall self' resp,
    get self = (self', Ok (Some resp)) ->
    _buffer self
    = firstn (Z.to_nat (4 + size_field (_buffer self))) (_buffer self)
      ++ _buffer self'
    /\ Z.of_nat (length (_buffer self))
       = 4 + size_field (_buffer self) + Z.of_nat (length (_buffer self')).

(** A call of [get] that returns no frame leaves the buffer alone. *)
Definition keeps_partial_frame (self : Reader) : Prop :=
  forall self' res,
    get self = (self', res) ->
    (res = Ok None \/ exists e, res = Raise e) ->
    _buffer self' = _buffer self.

(** The frame at the head of a buffer that holds one. *)
Definition frame_of (b : bytes) : result schema :=
  let self := mkReader b true (size_field b) in
  let* v := unpack_l (slice b DATA_SIZE HEADER_SIZE) in
  let* frame_type := enum.call FrameType.class v in
  _parse_payload self frame_type (size_field b).

(** The type field of a buffer that holds one. *)
Definition type_field (b : bytes) : Z := be_signed (firstn 4 (skipn 4 b)).

(** The bytes after the type field of the frame at the head of a buffer. *)
Definition payload_body (b : bytes) : bytes :=
  firstn (Z.to_nat (size_field b - 4)) (skipn 8 b).

Definition rest_of (b : bytes) : bytes :=
  skipn (Z.to_nat (4 + size_field b)) b.

(** A stream in which every size prefix counts at least the four bytes of
    the type field. *)
Inductive well_framed : bytes -> Prop :=
| wf_prefix b :
    (length b < 4)%nat -> well_framed b
| wf_partial b :
    4 <= size_field b -> Z.of_nat (length b) < 4 + size_field b ->
    well_framed b
| wf_frame b :
    complete b -> well_framed (rest_of b) -> well_framed b.

(** The frames of a buffer, read from its head until a frame is incomplete
    or fails to parse, and the bytes left. *)
Inductive parses : bytes -> list schema -> ending -> bytes -> Prop :=
| parses_wait b :
    incomplete b -> parses b [] Drained b
| parses_frame b resp fs e r :
    complete b -> frame_of b = Ok resp -> parses (rest_of b) fs e r ->
    parses b (resp :: fs) e r
| parses_fail b err :
    complete b -> frame_of b = Raise err -> parses b [] (Failed err) b.

(** *** The encoder

    [encode_command] takes values of any type: the ones it tells apart are
    modelled by [value]. *)

#[warnings="-register-all"]
Inductive value : Type :=
| VNone
| VBytes (b : bytes)
| VStr (s : string)
| VInt (n : Z)
| VList (l : list value).

(** Truth value of an object in a condition. *)
Definition truthy (v : value) : bool :=
  match v with
  | VNone => false
  | VBytes b => negb (Nat.eqb (length b) 0)
  | VStr s => negb (Nat.eqb (String.length s) 0)
  | VInt n => negb (n =? 0)
  | VList l => negb (Nat.eqb (length l) 0)
  end.

(** Modelled from the spec: [utils._convert_to_bytes] is not among the source
    files.  The command name and its arguments are ASCII text and a body is
    a byte string: [bytes] are returned as they are, text becomes its bytes,
    an integer its decimal digits; other values are refused. *)
Definition _convert_to_bytes (v : value) : result bytes :=
  match v with
  | VBytes b => Ok b
  | VStr s => Ok (bytes_of_string s)
  | VInt n => Ok (bytes_of_string (pretty n))
  | VNone | VList _ => Raise (TypeError "cannot convert to bytes")
  end.

(** [str.upper] and [str.strip] on ASCII text. *)
Definition upper_ascii (a : ascii) : ascii :=
  let n := nat_of_ascii a in
  if (97 <=? n)%nat && (n <=? 122)%nat then ascii_of_nat (n - 32) else a.

Definition upper (s : string) : string :=
  string_of_list_ascii (map upper_ascii (list_ascii_of_string s)).

Definition isspace_ascii (a : ascii) : bool :=
  let n := nat_of_ascii a in
  (n =? 32)%nat || ((9 <=? n)%nat && (n <=? 13)%nat)
  || ((28 <=? n)%nat && (n <=? 31)%nat).

Fixpoint lstrip_ascii (l : list ascii) : list ascii :=
  match l with
  | [] => []
  | a :: t => if isspace_ascii a then lstrip_ascii t else l
  end.

Definition strip (s : string) : string :=
  string_of_list_ascii
    (rev (lstrip_ascii (rev (lstrip_ascii (list_ascii_of_string s))))).

(** [sep.join(parts)] *)
Fixpoint join (sep : bytes) (parts : list bytes) : bytes :=
  match parts with
  | [] => []
  | [p] => p
  | p :: ps => p ++ sep ++ join sep ps
  end.

(** [[f(x) for x in l]] where [f] may raise. *)
Fixpoint map_result {A B} (f : A -> result B) (l : list A) : result (list B) :=
  match l with
  | [] => Ok []
  | x :: t =>
    let* y := f x in
    let* ys := map_result f t in
    Ok (y :: ys)
  end.

Definition _encode_body (data : value) : result bytes :=
  let* _data := _convert_to_bytes data in
  let* prefix := pack_l (Z.of_nat (length _data)) in
  Ok (prefix ++ _data).

Definition encode_command (cmd : string) (args : list value) (data : value)
  : result bytes :=
  let* _cmd := _convert_to_bytes (VStr (strip (upper cmd))) in
  let* _args := map_result _convert_to_bytes args in
  let params_data :=
    if negb (Nat.eqb (length _args) 0) then
      bytes_of_string " " ++ join (bytes_of_string " ") _args
    else [] in
  let* body_data :=
    match data with
    | VList parts =>
      if truthy data then
        let* data_encoded := map_result _encode_body parts in
        let num_parts := Z.of_nat (length data_encoded) in
        let* count := pack_l num_parts in
        let payload := count ++ join [] data_encoded in
        let* total := pack_l (Z.of_nat (length payload)) in
        Ok (total ++ payload)
      else Ok []
    | _ =>
      if truthy data then _encode_body data else Ok []
    end in
  Ok (join [] [_cmd; params_data; NL; body_data]).

(** The bytes the parts of a multiple publish take, each with its length
    prefix. *)
Definition parts_size (parts : list bytes) : Z :=
  fold_right (fun p n => 4 + Z.of_nat (length p) + n) 0 parts.

(** A part behind its length prefix. *)
Definition prefixed (p : bytes) : bytes :=
  be_bytes 4 (Z.of_nat (length p)) ++ p.

(** The exceptions the parser is seen to raise: the ones of [struct], of
    [FrameType(...)] and of the unpacking of [code, msg], and the one of
    [decode]. *)
Definition parser_exception (e : exn) : Prop :=
  (exists m, e = struct_error m) \/ (exists m, e = ValueError m)
  \/ e = UnicodeDecodeError.

(** *** The properties of a schema

    [NSQResponseSchema] answers [is_message], [is_response] and [is_error]
    from its frame type; its truth value is [True], the one of
    [NSQErrorSchema] is [False]. *)

Definition is_message (s : schema) : bool :=
  FrameType.is_message (frame_type s).

Definition is_response (s : schema) : bool :=
  FrameType.is_response (frame_type s).

Definition is_error (s : schema) : bool :=
  FrameType.is_error (frame_type s).

(** [__bool__] *)
Definition to_bool (s : schema) : bool :=
  match s with
  | NSQErrorSchema _ _ _ => false
  | _ => true
  end.

(** *** The compressed codecs

    [BaseCompressReader] wraps a [Reader] between a decompressor and a
    compressor.  Both are streams with a state of their own ([zlib] and
    [snappy] objects): they are taken as functions from the state and the
    input to the new state and the output. *)

Section BaseCompressReader.

Variables D C : Type.
Variable decompress : D -> bytes -> D * bytes.
Variable compress : C -> bytes -> C * bytes.

Record CompressReader : Type := mkCompressReader {
  _parser : Reader;
  _decompressor : D;
  _compressor : C
}.

(** [BaseCompressReader.feed]: an empty chunk is not given to the
    decompressor, an empty output is not given to the parser. *)
Definition compress_feed (self : CompressReader) (chunk : bytes)
  : CompressReader :=
  match chunk with
  | [] => self
  | _ =>
    let (d, uncompressed) := decompress (_decompressor self) chunk in
    mkCompressReader
      (match uncompressed with
       | [] => _parser self
       | _ => feed (_parser self) uncompressed
       end)
      d (_compressor self)
  end.

(** [DeflateReader(buffer)] and [SnappyReader(buffer)], from the initial
    states of the two streams. *)
Definition compress_new (d : D) (c : C) (buffer : option bytes)
  : CompressReader :=
  let self := mkCompressReader (new None) d c in
  match buffer with
  | Some b => compress_feed self b
  | None => self
  end.

(** [BaseCompressReader.get] *)
Definition compress_get (self : CompressReader)
  : CompressReader * result (option schema) :=
  let (parser, r) := get (_parser self) in
  (mkCompressReader parser (_decompressor self) (_compressor self), r).

(** [BaseCompressReader.encode_command] *)
Definition compress_encode_command (self : CompressReader) (cmd : string)
    (args : list value) (data : value) : CompressReader * result bytes :=
  match encode_command cmd args data with
  | Raise e => (self, Raise e)
  | Ok encoded =>
    let (c, compressed) := compress (_compressor self) encoded in
    (mkCompressReader (_parser self) (_decompressor self) c, Ok compressed)
  end.

(** What the decompressor gives for the chunks fed one by one: its outputs
    on the chunks that are not empty. *)
Fixpoint decompress_chunks (d : D) (chunks : list bytes) : D * list bytes :=
  match chunks with
  | [] => (d, [])
  | [] :: cs => decompress_chunks d cs
  | c :: cs =>
    let (d', out) := decompress d c in
    let (d'', outs) := decompress_chunks d' cs in
    (d'', out :: outs)
  end.

End BaseCompressReader.

(** [DeflateReader.compress]: the output of the compressor on the data,
    then its output on a sync flush. *)
Definition deflate_compress {C : Type} (zcompress : C -> bytes -> C * bytes)
    (zflush : C -> C * bytes) (c : C) (data : bytes) : C * bytes :=
  let (c1, chunk) := zcompress c data in
  let (c2, tail) := zflush c1 in
  (c2, chunk ++ tail).

End protocol.

(** ** asyncnsq/tcp/reader.py: the consumer *)

Module reader.

Import consts.

(** Modelled from the spec: [connection.py] is not among the source files.
    A connection is one link to an nsqd; its identity is the text
    [tcp://host:port]; [create_connection] opens it. *)
Record Connection : Type := mkConnection {
  id : string;
  _host : string;
  _port : string;
  rdy_state : Z;
  identified : bool;
  closed : bool
}.

Definition create_connection (host port : string) : Connection :=
  mkConnection ("tcp://" ++ host ++ ":" ++ port) host port 0 false false.

(** Modelled from the spec: [reader_rdy.py] is not among the source files.
    The RDY controller keeps the connections it is handed, by identity. *)
Record RdyControl : Type := mkRdyControl {
  rdy_connections : gmap string Connection
}.

Definition add_connections (c : RdyControl) (conns : gmap string Connection)
  : RdyControl :=
  mkRdyControl (conns ∪ rdy_connections c).

(** [class Reader].  [opened] is not a field of the class: it lists, in
    order, the connections [create_connection] has opened for this consumer,
    stored or not.  [_status] takes the values the source writes
    [consts.INIT] and [consts.CONNECTED]; [consts.py] has them as members of
    [ConnectionStatus] only. *)
Record Reader : Type := mkReader {
  _nsqd_tcp_addresses : list (string * string);
  _lookupd_http_addresses : list (string * string);
  _queue : list protocol.schema;
  _connections : gmap string Connection;
  _rdy_control : RdyControl;
  _status : enum.member;
  _is_subscribe : bool;
  opened : list Connection
}.

(** [Reader(nsqd_tcp_addresses, lookupd_http_addresses)] *)
Definition new (nsqd_tcp_addresses lookupd_http_addresses
                : list (string * string)) : Reader :=
  mkReader nsqd_tcp_addresses lookupd_http_addresses [] ∅ (mkRdyControl ∅)
           ConnectionStatus.INIT false [].

Definition prepare_conn (conn : Connection) : Connection :=
  mkConnection (id conn) (_host conn) (_port conn) 2 true (closed conn).

(** The [for] loop of [connect]: every address is opened and prepared; the
    loop variable [conn] keeps the connection of the last iteration. *)
Fixpoint connect_loop (addresses : list (string * string))
    (conn : option Connection) (opened : list Connection)
  : option Connection * list Connection :=
  match addresses with
  | [] => (conn, opened)
  | (host, port) :: rest =>
    let c := prepare_conn (create_connection host port) in
    connect_loop rest (Some c) (opened ++ [c])
  end.

(** [Reader.connect].  The statements after the loop are outside it, so they
    run once, with the last connection.  The task started at the end
    ([auto_reconnect]) is not part of the model. *)
Definition connect (self : Reader) : Reader :=
  match _nsqd_tcp_addresses self with
  | [] => self
  | addresses =>
    let (conn, opened') := connect_loop addresses None (opened self) in
    match conn with
    | None => self
    | Some conn =>
      let connections := <[id conn := conn]> (_connections self) in
      mkReader (_nsqd_tcp_addresses self) (_lookupd_http_addresses self)
               (_queue self) connections
               (add_connections (_rdy_control self) connections)
               ConnectionStatus.CONNECTED (_is_subscribe self) opened'
    end
  end.

(** *** The two generators

    Calling [wait_messages()] or [messages()] creates a generator and runs
    none of its body; the body runs when the generator is resumed.  A
    resumption reads [self] as it is then. *)

Inductive gen_state : Type :=
| Created      (* not started *)
| AtAwait      (* [messages] only: waiting in [await self._queue.get()] *)
| AtYield      (* suspended at [yield] *)
| Finished.

Inductive gen_event (A : Type) : Type :=
| Yield (a : A)
| Pending          (* the awaited queue is empty *)
| Stop             (* the generator is exhausted *)
| Raised (e : exn).

Arguments Yield {A} a.
Arguments Pending {A}.
Arguments Stop {A}.
Arguments Raised {A} e.

(** What [wait_messages] yields: a new task running [self._queue.get()]. *)
Inductive future : Type :=
| QueueGetTask.

Definition not_subscribed : exn :=
  ValueError "You must subscribe to the topic first".

(** The calls: a generator that has not started. *)
Definition wait_messages (self : Reader) : gen_state := Created.
Definition messages (self : Reader) : gen_state := Created.

Definition wait_messages_loop (self : Reader) : gen_state * gen_event future :=
  if _is_subscribe self then (AtYield, Yield QueueGetTask)
  else (Finished, Stop).

Definition wait_messages_resume (self : Reader) (st : gen_state)
  : gen_state * gen_event future :=
  match st with
  | Created =>
    if negb (_is_subscribe self) then (Finished, Raised not_subscribed)
    else wait_messages_loop self
  | AtYield | AtAwait => wait_messages_loop self
  | Finished => (Finished, Stop)
  end.

Definition set_queue (self : Reader) (q : list protocol.schema) : Reader :=
  mkReader (_nsqd_tcp_addresses self) (_lookupd_http_addresses self) q
           (_connections self) (_rdy_control self) (_status self)
           (_is_subscribe self) (opened self).

Definition messages_await (self : Reader)
  : Reader * gen_state * gen_event protocol.schema :=
  match _queue self with
  | [] => (self, AtAwait, Pending)
  | result :: q => (set_queue self q, AtYield, Yield result)
  end.

Definition messages_loop (self : Reader)
  : Reader * gen_state * gen_event protocol.schema :=
  if _is_subscribe self then messages_await self else (self, Finished, Stop).

Definition messages_resume (self : Reader) (st : gen_state)
  : Reader * gen_state * gen_event protocol.schema :=
  match st with
  | Created =>
    if negb (_is_subscribe self) then (self, Finished, Raised not_subscribed)
    else messages_loop self
  | AtAwait => messages_await self
  | AtYield => messages_loop self
  | Finished => (self, Finished, Stop)
  end.

(** The values yielded by [n] resumptions, the first one on [self]; between
    two resumptions the rest of the program may change the consumer: [env k]
    is what it does after resumption [k]. *)
Fixpoint wait_messages_yields (env : nat -> Reader -> Reader) (n k : nat)
    (self : Reader) (st : gen_state) : list future :=
  match n with
  | O => []
  | S n' =>
    let (st', ev) := wait_messages_resume self st in
    match ev with
    | Yield f => f :: wait_messages_yields env n' (S k) (env k self) st'
    | _ => wait_messages_yields env n' (S k) (env k self) st'
    end
  end.

Fixpoint messages_yields (env : nat -> Reader -> Reader) (n k : nat)
    (self : Reader) (st : gen_state) : list protocol.schema :=
  match n with
  | O => []
  | S n' =>
    let '(self', st', ev) := messages_resume self st in
    match ev with
    | Yield m => m :: messages_yields env n' (S k) (env k self') st'
    | _ => messages_yields env n' (S k) (env k self') st'
    end
  end.

(** *** Messages, discovery, subscription and stop *)

(** [Reader._on_message(conn, msg)]: one unit of [rdy_state] is taken and
    the message is returned.  The time stamp and the call of the
    connection's callback are not part of the model. *)
Definition _on_message (conn : Connection) (msg : protocol.schema)
  : Connection * protocol.schema :=
  (mkConnection (id conn) (_host conn) (_port conn) (rdy_state conn - 1)
                (identified conn) (closed conn),
   msg).

(** Modelled from the spec: [RdyControl.add_connection] ([reader_rdy.py] is
    not among the source files) keeps the connection, by identity. *)
Definition add_connection (c : RdyControl) (conn : Connection) : RdyControl :=
  mkRdyControl (<[id conn := conn]> (rdy_connections c)).

(** An entry of the [producers] of a lookup. *)
Record producer : Type := mkProducer {
  broadcast_address : string;
  tcp_port : Z
}.

(** ["tcp://{}:{}".format(host, port)] *)
Definition producer_id (p : producer) : string :=
  "tcp://" ++ broadcast_address p ++ ":" ++ pretty (tcp_port p).

(** The body of the loop of [_poll_lookupd]. *)
Definition poll_producer (self : Reader) (p : producer) : Reader :=
  let host := broadcast_address p in
  let port := pretty (tcp_port p) in
  let tmp_id := producer_id p in
  match _connections self !! tmp_id with
  | Some _ => self
  | None =>
    let conn := create_connection host port in
    mkReader (_nsqd_tcp_addresses self) (_lookupd_http_addresses self)
             (_queue self) (<[id conn := conn]> (_connections self))
             (add_connection (_rdy_control self) conn)
             (_status self) (_is_subscribe self) (opened self ++ [conn])
  end.

(** [Reader._poll_lookupd], from the answer of the lookup: [None] when the
    lookup raised, which the method logs and goes on from, [Some producers]
    when it returned the dictionary the loop reads. *)
Definition _poll_lookupd (self : Reader) (res : option (list producer))
  : Reader * result unit :=
  match res with
  | None =>
    (self, Raise (UnboundLocalError
       "local variable 'res' referenced before assignment"))
  | Some producers => (fold_left poll_producer producers self, Ok tt)
  end.

Definition set_is_subscribe (self : Reader) (flag : bool) : Reader :=
  mkReader (_nsqd_tcp_addresses self) (_lookupd_http_addresses self)
           (_queue self) (_connections self) (_rdy_control self)
           (_status self) flag (opened self).

(** A task of the event loop. *)
Inductive Task : Type :=
| Running
| Cancelled.

(** [class Reader] with the fields [Reader] above leaves out.  [subscribed]
    is not a field of the class: it is the set of the connections on which
    [SUB] has been executed; [rdy_stopped] tells that the RDY controller has
    been stopped. *)
Record Consumer : Type := mkConsumer {
  base : Reader;
  topic : option string;
  channel : option string;
  _redistribute_task : option Task;
  _reconnect_task : option Task;
  subscribed : gset string;
  rdy_stopped : bool
}.

(** [Reader.__init__] *)
Definition consumer_new (nsqd_tcp_addresses lookupd_http_addresses
                         : list (string * string)) : Consumer :=
  mkConsumer (new nsqd_tcp_addresses lookupd_http_addresses)
             None None None None ∅ false.

(** [Reader.connect]; the task it starts is not kept in any field. *)
Definition consumer_connect (self : Consumer) : Consumer :=
  mkConsumer (connect (base self)) (topic self) (channel self)
             (_redistribute_task self) (_reconnect_task self)
             (subscribed self) (rdy_stopped self).

(** [Reader.subscribe], with the answer of the lookup should one be made.
    The flag is set first; discovery runs when lookupd addresses are
    configured; [SUB] is executed on every stored connection; the
    redistribution task is started unless there is one. *)
Definition subscribe (self : Consumer) (topic_ channel_ : string)
    (res : option (list producer)) : Consumer * result unit :=
  let b := set_is_subscribe (base self) true in
  let polled :=
    match _lookupd_http_addresses b with
    | [] => (b, Ok tt)
    | _ => _poll_lookupd b res
    end in
  match polled with
  | (b', Raise e) =>
    (mkConsumer b' (Some topic_) (Some channel_) (_redistribute_task self)
                (_reconnect_task self) (subscribed self) (rdy_stopped self),
     Raise e)
  | (b', Ok _) =>
    (mkConsumer b' (Some topic_) (Some channel_)
                (match _redistribute_task self with
                 | Some t => Some t
                 | None => Some Running
                 end)
                (_reconnect_task self)
                (subscribed self ∪ dom (_connections b'))
                (rdy_stopped self),
     Ok tt)
  end.

(** How [stop] ends: it returns, or raises [AttributeError]. *)
Inductive stopped : Type :=
| Returned
| RaisedAttributeError (msg : string).

(** [Reader.stop].  [self._reconnect_task.cancel()] needs a task; the loop
    after it goes over the keys of [_connections], which are texts and have
    no [close]. *)
Definition stop (self : Consumer) : Consumer * stopped :=
  let b := set_is_subscribe (base self) false in
  let redistribute :=
    match _redistribute_task self with
    | Some _ => Some Cancelled
    | None => None
    end in
  match _reconnect_task self with
  | None =>
    (mkConsumer b (topic self) (channel self) redistribute None
                (subscribed self) (rdy_stopped self),
     RaisedAttributeError "'NoneType' object has no attribute 'cancel'")
  | Some _ =>
    if decide (_connections b = ∅) then
      (mkConsumer b (topic self) (channel self) redistribute (Some Cancelled)
                  (subscribed self) true,
       Returned)
    else
      (mkConsumer b (topic self) (channel self) redistribute (Some Cancelled)
                  (subscribed self) (rdy_stopped self),
       RaisedAttributeError "'str' object has no attribute 'close'")
  end.

(** The consumers made by the constructor and the methods above. *)
Inductive reachable : Consumer -> Prop :=
| reachable_new nsqd lookupd : reachable (consumer_new nsqd lookupd)
| reachable_connect self : reachable self -> reachable (consumer_connect self)
| reachable_subscribe self topic_ channel_ res :
    reachable self -> reachable (fst (subscribe self topic_ channel_ res))
| reachable_stop self : reachable self -> reachable (fst (stop self)).

(** *** [create_reader] *)

(** [s.split(sep)] for a separator of one character. *)
Fixpoint split_on (sep : ascii) (s : string) : list string :=
  match s with
  | EmptyString => [EmptyString]
  | String c t =>
    if Ascii.eqb c sep then EmptyString :: split_on sep t
    else
      match split_on sep t with
      | h :: r => String c h :: r
      | [] => [String c EmptyString]
      end
  end.

(** [host, port = parts] *)
Definition unpack_pair (parts : list string) : result (string * string) :=
  match parts with
  | [host; port] => Ok (host, port)
  | _ :: _ :: _ :: _ =>
    Raise (ValueError "too many values to unpack (expected 2)")
  | _ =>
    Raise (ValueError ("not enough values to unpack (expected 2, got "
                       ++ pretty (length parts) ++ ")"))
  end.

(** The addresses the loop of [connect] gets through, and the exception that
    stops it if one does. *)
Fixpoint unpack_pairs (addresses : list (list string))
  : list (string * string) * option exn :=
  match addresses with
  | [] => ([], None)
  | parts :: rest =>
    match unpack_pair parts with
    | Ok hp => let (pairs, e) := unpack_pairs rest in (hp :: pairs, e)
    | Raise e => ([], Some e)
    end
  end.

(** [create_reader(nsqd_tcp_addresses, lookupd_http_addresses)]: the
    connections opened, and the consumer returned or the exception raised.
    The lookupd addresses are taken as pairs of host and port. *)
Definition create_reader (nsqd_tcp_addresses : option (list string))
    (lookupd_http_addresses : list (string * string))
  : list Connection * result Reader :=
  match lookupd_http_addresses with
  | _ :: _ =>
    let reader := connect (new [] lookupd_http_addresses) in
    (opened reader, Ok reader)
  | [] =>
    let addresses := default ["127.0.0.1:4150"%string] nsqd_tcp_addresses in
    let (pairs, e) := unpack_pairs (map (split_on ":") addresses) in
    match e with
    | None => let reader := connect (new pairs []) in (opened reader, Ok reader)
    | Some e => (snd (connect_loop pairs None []), Raise e)
    end
  end.

End reader.

(** ** asyncnsq/http/base.py *)

Module http_base.

Section perform_request.

(** A decoded JSON document, and [json.loads] on the texts that start like a
    JSON document: [None] stands for [ValueError]. *)
Variable JSON : Type.
Variable json_document : string -> option JSON.

(** [http_exceptions.py] is not among the source files: the exception
    classes, the table from status to class and the default class. *)
Variable exc_class : Type.
Variable HTTP_EXCEPTIONS : gmap Z exc_class.
Variable NsqHttpException : exc_class.

(** The characters that [json.loads] skips before a document, and the
    characters a document can start with: an object, an array, a string, a
    number, [true], [false], [null], [NaN] and [Infinity]. *)
Definition json_blank (a : ascii) : bool :=
  let n := nat_of_ascii a in
  (n =? 32)%nat || (n =? 9)%nat || (n =? 10)%nat || (n =? 13)%nat.

Definition json_start (a : ascii) : bool :=
  let n := nat_of_ascii a in
  (n =? 123)%nat || (n =? 91)%nat || (n =? 34)%nat || (n =? 45)%nat
  || ((48 <=? n)%nat && (n <=? 57)%nat)
  || (n =? 116)%nat || (n =? 102)%nat || (n =? 110)%nat
  || (n =? 78)%nat || (n =? 73)%nat.

Fixpoint first_after_blanks (s : string) : option ascii :=
  match s with
  | EmptyString => None
  | String a t => if json_blank a then first_after_blanks t else Some a
  end.

(** [json.loads]: a text that is empty, blank, or whose first character
    cannot start a document is refused; the rest is left to
    [json_document]. *)
Definition json_loads (s : string) : option JSON :=
  match first_after_blanks s with
  | Some a => if json_start a then json_document s else None
  | None => None
  end.

Record response : Type := mkResponse {
  status : Z;
  text : string
}.

Inductive returned : Type :=
| ReturnText (resp_body : string)
| ReturnJSON (response : JSON).

Inductive raised : Type :=
| RaiseHttp (cls : exc_class) (status : Z) (resp_body : string)
    (extra : option JSON)
| RaiseOther (e : exn).

(** [perform_request], from the answer of [self._session.request]: [None]
    when the request raised, which the method prints and goes on from. *)
Definition perform_request (resp : option response) : returned + raised :=
  match resp with
  | None =>
    inr (RaiseOther (UnboundLocalError
      "local variable 'resp' referenced before assignment"))
  | Some resp =>
    let resp_body := text resp in
    match json_loads resp_body with
    | None => inl (ReturnText resp_body)
    | Some response =>
      if negb ((200 <=? status resp) && (status resp <=? 300)) then
        let extra :=
          match json_loads resp_body with
          | Some j => Some j
          | None => None
          end in
        let cls := default NsqHttpException (HTTP_EXCEPTIONS !! status resp) in
        inr (RaiseHttp cls (status resp) resp_body extra)
      else inl (ReturnJSON response)
    end
  end.

End perform_request.

(** *** [perform_request] with every outcome of [json.loads]

    [json.loads] returns a value, which is Python's [None] for the document
    [null], raises [ValueError], or raises something else (a
    [RecursionError] on a deeply nested body), which [perform_request] does
    not catch. *)

Inductive loaded (JSON : Type) : Type :=
| Decoded (j : JSON)
| NotJSON
| LoadsRaised (exception : string).

Arguments Decoded {JSON} j.
Arguments NotJSON {JSON}.
Arguments LoadsRaised {JSON} exception.

Section perform_request_loads.

Variable JSON : Type.
Variable loads : string -> loaded JSON.
Variable exc_class : Type.
Variable HTTP_EXCEPTIONS : gmap Z exc_class.
Variable NsqHttpException : exc_class.

(** How the method ends.  [extra] is [None] when the second [json.loads]
    raised [ValueError], and the value it returned otherwise. *)
Inductive outcome : Type :=
| Returns (value : returned JSON)
| RaisesHttp (cls : exc_class) (status : Z) (resp_body : string)
    (extra : option JSON)
| RaisesFromLoads (exception : string)
| RaisesUnboundLocalError.

Definition perform_request_loads (resp : option response) : outcome :=
  match resp with
  | None => RaisesUnboundLocalError
  | Some resp =>
    let resp_body := text resp in
    match loads resp_body with
    | NotJSON => Returns (ReturnText JSON resp_body)
    | LoadsRaised x => RaisesFromLoads x
    | Decoded response =>
      if negb ((200 <=? status resp) && (status resp <=? 300)) then
        match loads resp_body with
        | LoadsRaised x => RaisesFromLoads x
        | loaded_extra =>
          let extra :=
            match loaded_extra with
            | Decoded j => Some j
            | _ => None
            end in
          let cls :=
            default NsqHttpException (HTTP_EXCEPTIONS !! status resp) in
          RaisesHttp cls (status resp) resp_body extra
        end
      else Returns (ReturnJSON JSON response)
    end
  end.

End perform_request_loads.

End http_base.

(** ** Byte streams used as examples *)

Module inputs.

(** The frame [OK] in two pieces: size 6, type RESPONSE, then the body. *)
Definition ok_head : bytes := [x00; x00; x00; x06; x00; x00; x00; x00].
Definition ok_tail : bytes := [x4f; x4b].

(** A size prefix of zero. *)
Definition zero_size : bytes := [x00; x00; x00; x00].

(** A size prefix of -5, then a type field. *)
Definition negative_size : bytes :=
  [xff; xff; xff; xfb; x00; x00; x00; x00].

(** A frame of size 4 and type 3. *)
Definition unknown_type : bytes :=
  [x00; x00; x00; x04; x00; x00; x00; x03].

(** A MESSAGE frame: size 32, type 2, timestamp 1, the attempts field
    [80 00], the id [0123456789abcdef] and the body [hi]. *)
Definition message_attempts_8000 : bytes :=
  [x00; x00; x00; x20; x00; x00; x00; x02;
   x00; x00; x00; x00; x00; x00; x00; x01; x80; x00]
  ++ bytes_of_string "0123456789abcdefhi".

(** An ERROR frame whose body is [E_INVALID]: size 13, type 1. *)
Definition error_without_message : bytes :=
  [x00; x00; x00; x0d; x00; x00; x00; x01] ++ bytes_of_string "E_INVALID".

(** An ERROR frame whose body is [E_FIN_FAILED not found]. *)
Definition error_with_message : bytes :=
  [x00; x00; x00; x1a; x00; x00; x00; x01]
  ++ bytes_of_string "E_FIN_FAILED not found".

(** [MPUB t] with the parts [a] and [bb], as C5 gives it: a total length
    of 14. *)
Definition mpub_total_14 : bytes :=
  bytes_of_string "MPUB t" ++ [x0a]
  ++ be_bytes 4 14 ++ be_bytes 4 2
  ++ be_bytes 4 1 ++ bytes_of_string "a"
  ++ be_bytes 4 2 ++ bytes_of_string "bb".

(** The same with a total length of 15. *)
Definition mpub_total_15 : bytes :=
  bytes_of_string "MPUB t" ++ [x0a]
  ++ be_bytes 4 15 ++ be_bytes 4 2
  ++ be_bytes 4 1 ++ bytes_of_string "a"
  ++ be_bytes 4 2 ++ bytes_of_string "bb".

Definition mpub_parts : protocol.value :=
  protocol.VList [protocol.VBytes (bytes_of_string "a");
                  protocol.VBytes (bytes_of_string "bb")].

(** Two static nsqd addresses. *)
Definition two_addresses : list (string * string) :=
  [("a", "4150"); ("b", "4150")]%string.

(** An answer with status 404 whose body is not JSON. *)
Definition not_found_page : http_base.response :=
  http_base.mkResponse 404 "<html>404 page not found</html>".

(** A size prefix of -4, then the type RESPONSE. *)
Definition minus_four : bytes :=
  [xff; xff; xff; xfc; x00; x00; x00; x00].

(** A size prefix of 1 and two more bytes. *)
Definition size_one : bytes := [x00; x00; x00; x01; x00; x00].

(** A RESPONSE frame with the body [_heartbeat_]: size 15, type 0. *)
Definition heartbeat : bytes :=
  [x00; x00; x00; x0f; x00; x00; x00; x00] ++ bytes_of_string "_heartbeat_".

(** A MESSAGE frame with the body [_heartbeat_]: size 41, type 2,
    timestamp 1, attempts 1, id [0123456789abcdef]. *)
Definition heartbeat_message : bytes :=
  [x00; x00; x00; x29; x00; x00; x00; x02;
   x00; x00; x00; x00; x00; x00; x00; x01; x00; x01]
  ++ bytes_of_string "0123456789abcdef_heartbeat_".

(** A MESSAGE frame of size 12: type 2 and eight more bytes. *)
Definition short_message : bytes :=
  [x00; x00; x00; x0c; x00; x00; x00; x02;
   x00; x00; x00; x00; x00; x00; x00; x01].

(** A consumer with one static address, connected and subscribed. *)
Definition subscribed_consumer : reader.Consumer :=
  fst (reader.subscribe
         (reader.consumer_connect
            (reader.consumer_new [("127.0.0.1", "4150")%string] []))
         "topic" "channel" None).

(** A consumer configured with one lookupd address. *)
Definition lookupd_consumer : reader.Consumer :=
  reader.consumer_new [] [("127.0.0.1", "4161")%string].

End inputs.

(** * Properties *)

(** ** Slices and fixed-width fields *)

Section slices.

Context {A : Type}.
Implicit Types l x : list A.

Lemma slice_index_inside (len k : Z) :
  0 <= k <= len -> slice_index len k = k.
Proof. unfold slice_index. intros H. destruct (Z.ltb_spec k 0); lia. Qed.

Lemma slice_inside l (i j : Z) :
  0 <= i -> i <= j -> j <= Z.of_nat (length l) ->
  slice l i j = firstn (Z.to_nat (j - i)) (skipn (Z.to_nat i) l).
Proof.
  intros Hi Hij Hj. unfold slice.
  rewrite !slice_index_inside by lia. reflexivity.
Qed.

Lemma slice_app l x (i j : Z) :
  0 <= i -> 0 <= j -> j <= Z.of_nat (length l) ->
  slice (l ++ x) i j = slice l i j.
Proof.
  intros Hi Hj Hlen. unfold slice. rewrite length_app, Nat2Z.inj_add.
  assert (Hj' : slice_index (Z.of_nat (length l) + Z.of_nat (length x)) j = j)
    by (apply slice_index_inside; lia).
  assert (Hj'' : slice_index (Z.of_nat (length l)) j = j)
    by (apply slice_index_inside; lia).
  rewrite Hj', Hj''.
  unfold slice_index. destruct (Z.ltb_spec i 0) as [|_]; [lia|].
  destruct (Z.le_gt_cases i (Z.of_nat (length l))) as [Hle|Hgt].
  - rewrite !Z.min_l by lia.
    rewrite skipn_app, firstn_app, length_skipn.
    replace (Z.to_nat i - length l)%nat with 0%nat by lia.
    replace (Z.to_nat (j - i) - (length l - Z.to_nat i))%nat with 0%nat by lia.
    simpl. rewrite app_nil_r. reflexivity.
  - replace (Z.to_nat (j - Z.min i (Z.of_nat (length l) + Z.of_nat (length x))))
      with 0%nat by lia.
    replace (Z.to_nat (j - Z.min i (Z.of_nat (length l)))) with 0%nat by lia.
    reflexivity.
Qed.

Lemma slice_from_inside l (k : Z) :
  0 <= k <= Z.of_nat (length l) -> slice_from l k = skipn (Z.to_nat k) l.
Proof. intros H. unfold slice_from. rewrite slice_index_inside; auto. Qed.

Lemma slice_head l (n : Z) :
  0 <= n <= Z.of_nat (length l) -> slice l 0 n = firstn (Z.to_nat n) l.
Proof.
  intros H. rewrite slice_inside by lia.
  rewrite Z.sub_0_r. reflexivity.
Qed.

End slices.

(** ** The codec: one call of [get] *)

Import protocol.

Lemma unpack_l_size (b : bytes) :
  (4 <= length b)%nat ->
  unpack_l (slice b 0 consts.DATA_SIZE) = Ok (size_field b).
Proof.
  intros H. unfold consts.DATA_SIZE. rewrite slice_head by lia.
  unfold unpack_l, size_field. change (Z.to_nat 4) with 4%nat.
  rewrite firstn_length_le by lia. reflexivity.
Qed.

Lemma complete_length (b : bytes) : complete b -> (8 <= length b)%nat.
Proof. unfold complete. lia. Qed.

Lemma parse_payload_ext (s1 s2 : Reader) (ft : enum.member) (p : Z) :
  slice (_buffer s1) consts.HEADER_SIZE (consts.DATA_SIZE + p)
  = slice (_buffer s2) consts.HEADER_SIZE (consts.DATA_SIZE + p) ->
  _parse_payload s1 ft p = _parse_payload s2 ft p.
Proof.
  intros H. unfold _parse_payload, _unpack_error, _unpack_message,
    _unpack_response. rewrite H. reflexivity.
Qed.

(** On a buffer that holds a whole frame, [get] returns the frame at its
    head and drops it, or raises what parsing the frame raises and keeps the
    buffer. *)
Lemma get_complete (self : Reader) :
  inv self -> complete (_buffer self) ->
  get self =
  match frame_of (_buffer self) with
  | Ok resp => (mkReader (rest_of (_buffer self)) false 0, Ok (Some resp))
  | Raise e =>
    (mkReader (_buffer self) true (size_field (_buffer self)), Raise e)
  end.
Proof.
  intros Hinv Hc. pose proof (complete_length _ Hc) as Hlen.
  destruct Hc as [Hs Hl]. destruct self as [b h p]. simpl in *.
  assert (Hget : get (mkReader b h p) = get (mkReader b true (size_field b))).
  { destruct h.
    - destruct (Hinv eq_refl) as [_ Hp]. simpl in Hp. subst p. reflexivity.
    - unfold get. simpl.
      replace (consts.DATA_SIZE <=? Z.of_nat (length b)) with true
        by (symmetry; apply Z.leb_le; unfold consts.DATA_SIZE; lia).
      rewrite unpack_l_size by lia. reflexivity. }
  rewrite Hget. unfold get, frame_of. simpl.
  replace (consts.DATA_SIZE + size_field b <=? Z.of_nat (length b)) with true
    by (symmetry; apply Z.leb_le; unfold consts.DATA_SIZE; lia).
  match goal with |- context [match ?x with Ok _ => _ | Raise _ => _ end] =>
    destruct x as [resp|e] end; [|reflexivity].
  unfold rest_of. rewrite slice_from_inside by (unfold consts.DATA_SIZE; lia).
  reflexivity.
Qed.

(** On a buffer that does not hold its first frame yet, [get] returns [None]
    and keeps the buffer. *)
Lemma get_incomplete (self : Reader) :
  inv self -> incomplete (_buffer self) ->
  exists self',
    get self = (self', Ok None)
    /\ _buffer self' = _buffer self /\ inv self'.
Proof.
  intros Hinv Hi. destruct self as [b h p]. simpl in *.
  destruct (Nat.lt_ge_cases (length b) 4) as [Hlt|Hge].
  - assert (h = false) as ->.
    { destruct h; [|reflexivity]. destruct (Hinv eq_refl). simpl in *. lia. }
    exists (mkReader b false p). unfold get. simpl.
    replace (consts.DATA_SIZE <=? Z.of_nat (length b)) with false
      by (symmetry; apply Z.leb_gt; unfold consts.DATA_SIZE; lia).
    simpl. auto.
  - destruct Hi as [Hi|Hl]; [lia|].
    exists (mkReader b true (size_field b)). split; [|split].
    + unfold get. simpl. destruct h.
      * destruct (Hinv eq_refl) as [_ Hp]. simpl in Hp. subst p. simpl.
        replace (consts.DATA_SIZE + size_field b <=? Z.of_nat (length b))
          with false
          by (symmetry; apply Z.leb_gt; unfold consts.DATA_SIZE; lia).
        reflexivity.
      * simpl.
        replace (consts.DATA_SIZE <=? Z.of_nat (length b)) with true
          by (symmetry; apply Z.leb_le; unfold consts.DATA_SIZE; lia).
        rewrite unpack_l_size by lia. simpl.
        replace (consts.DATA_SIZE + size_field b <=? Z.of_nat (length b))
          with false
          by (symmetry; apply Z.leb_gt; unfold consts.DATA_SIZE; lia).
        reflexivity.
    + reflexivity.
    + intros _. simpl. split; [lia|reflexivity].
Qed.

(** ** The invariant of the codec *)

Lemma size_field_app (b x : bytes) :
  (4 <= length b)%nat -> size_field (b ++ x) = size_field b.
Proof.
  intros H. unfold size_field. rewrite firstn_app.
  replace (4 - length b)%nat with 0%nat by lia.
  simpl. rewrite app_nil_r. reflexivity.
Qed.

Lemma inv_new (buffer : option bytes) : inv (new buffer).
Proof.
  unfold inv, new, feed. destruct buffer as [[|c b]|]; simpl; discriminate.
Qed.

Lemma inv_feed (self : Reader) (chunk : bytes) :
  inv self -> inv (feed self chunk).
Proof.
  intros Hinv. unfold feed. destruct chunk as [|c chunk]; [exact Hinv|].
  unfold inv in *. simpl. intros Hh. destruct (Hinv Hh) as [Hlen Hp].
  split.
  - rewrite length_app. lia.
  - rewrite size_field_app by exact Hlen. exact Hp.
Qed.

Lemma inv_get (self : Reader) : inv self -> inv (fst (get self)).
Proof.
  intros Hinv. unfold get.
  set (header := if negb (_is_header self)
                    && (consts.DATA_SIZE <=? Z.of_nat (length (_buffer self)))
                 then _ else _).
  assert (Hheader : match header with
                    | Ok s => inv s /\ _buffer s = _buffer self
                    | Raise _ => True
                    end).
  { subst header.
    destruct (negb (_is_header self)
              && (consts.DATA_SIZE <=? Z.of_nat (length (_buffer self))))
      eqn:Hc; [|auto].
    apply andb_prop in Hc. destruct Hc as [_ Hlen]. apply Z.leb_le in Hlen.
    unfold consts.DATA_SIZE in Hlen.
    rewrite unpack_l_size by lia. simpl. split; [|reflexivity].
    intros _. simpl. split; [lia|reflexivity]. }
  destruct header as [s|e]; [|exact Hinv].
  destruct Hheader as [Hs _].
  destruct (_is_header s && _); [|exact Hs].
  match goal with |- context [match ?x with Ok _ => _ | Raise _ => _ end] =>
    destruct x end; simpl; [|exact Hs].
  intros Hh. discriminate Hh.
Qed.

(** Every state reached from a new codec by [feed] and [get]. *)
Inductive reachable : Reader -> Prop :=
| reachable_new buffer : reachable (new buffer)
| reachable_feed self chunk : reachable self -> reachable (feed self chunk)
| reachable_get self : reachable self -> reachable (fst (get self)).

Lemma reachable_inv (self : Reader) : reachable self -> inv self.
Proof.
  induction 1; auto using inv_new, inv_feed, inv_get.
Qed.

(** ** Frames and appended input *)

Lemma complete_app (b x : bytes) : complete b -> complete (b ++ x).
Proof.
  intros Hc. pose proof (complete_length _ Hc). destruct Hc as [Hs Hl].
  unfold complete. rewrite size_field_app, length_app by lia. lia.
Qed.

Lemma rest_of_app (b x : bytes) :
  complete b -> rest_of (b ++ x) = rest_of b ++ x.
Proof.
  intros Hc. pose proof (complete_length _ Hc). destruct Hc as [Hs Hl].
  unfold rest_of. rewrite size_field_app by lia. rewrite skipn_app.
  replace (Z.to_nat (4 + size_field b) - length b)%nat with 0%nat by lia.
  reflexivity.
Qed.

Lemma frame_of_app (b x : bytes) :
  complete b -> frame_of (b ++ x) = frame_of b.
Proof.
  intros Hc. pose proof (complete_length _ Hc). destruct Hc as [Hs Hl].
  unfold frame_of. rewrite size_field_app by lia.
  unfold consts.HEADER_SIZE, consts.DATA_SIZE, consts.FRAME_SIZE.
  rewrite slice_app by lia.
  destruct (unpack_l (slice b 4 (4 + 4))) as [v|e]; [|reflexivity]. simpl.
  destruct (enum.call consts.FrameType.class v) as [ft|e]; [|reflexivity].
  simpl. apply parse_payload_ext. simpl.
  unfold consts.HEADER_SIZE, consts.DATA_SIZE, consts.FRAME_SIZE.
  apply slice_app; lia.
Qed.

Lemma rest_of_length (b : bytes) :
  complete b -> (length (rest_of b) < length b)%nat.
Proof.
  intros Hc. pose proof (complete_length _ Hc). destruct Hc as [Hs Hl].
  unfold rest_of. rewrite length_skipn. lia.
Qed.

(** ** Reading a well-framed stream *)

(** [drain] computes the frames of the buffer, given more calls than the
    buffer has bytes. *)
Lemma drain_parses (b : bytes) (fs : list schema) (e : ending) (r : bytes) :
  parses b fs e r ->
  forall (self : Reader) (n : nat),
    inv self -> _buffer self = b -> (length b < n)%nat ->
    exists self',
      drain n self = (self', fs, e) /\ _buffer self' = r /\ inv self'.
Proof.
  induction 1 as [b Hi|b resp fs e r Hc Hf _ IH|b err Hc Hf];
    intros self n Hinv Hb Hn; subst b;
    (destruct n as [|n]; [lia|]); simpl.
  - destruct (get_incomplete self Hinv Hi) as (self' & -> & Hb' & Hinv').
    eauto.
  - rewrite (get_complete self Hinv Hc), Hf.
    pose proof (rest_of_length _ Hc) as Hlt.
    destruct (IH (mkReader (rest_of (_buffer self)) false 0) n)
      as (self' & -> & Hb' & Hinv'); simpl; try reflexivity; try lia.
    + intros Hh. discriminate Hh.
    + eauto.
  - rewrite (get_complete self Hinv Hc), Hf.
    eexists. split; [reflexivity|]. split; [reflexivity|].
    intros _. simpl. pose proof (complete_length _ Hc). split; [lia|reflexivity].
Qed.

Lemma parses_finished b fs e r : parses b fs e r -> e <> Unfinished.
Proof. induction 1; congruence. Qed.

Lemma parses_drained_incomplete b fs r :
  parses b fs Drained r -> incomplete r.
Proof.
  intros H. remember Drained as e eqn:He.
  induction H; auto; discriminate.
Qed.

Lemma parses_app b fs r x fs' e' r' :
  parses b fs Drained r -> parses (r ++ x) fs' e' r' ->
  parses (b ++ x) (fs ++ fs') e' r'.
Proof.
  intros H. remember Drained as e eqn:He. revert He.
  induction H as [b Hi|b resp fs e r Hc Hf _ IH|b err Hc Hf];
    intros He H'; subst.
  - exact H'.
  - simpl. apply parses_frame.
    + apply complete_app, Hc.
    + rewrite frame_of_app; assumption.
    + rewrite rest_of_app by assumption. apply IH; auto.
  - discriminate.
Qed.

Lemma parses_app_failed b fs err r x :
  parses b fs (Failed err) r -> parses (b ++ x) fs (Failed err) (r ++ x).
Proof.
  intros H. remember (Failed err) as e eqn:He. revert He.
  induction H as [b Hi|b resp fs e r Hc Hf _ IH|b err' Hc Hf];
    intros He; subst.
  - discriminate.
  - apply parses_frame.
    + apply complete_app, Hc.
    + rewrite frame_of_app; assumption.
    + rewrite rest_of_app by assumption. apply IH; auto.
  - injection He as ->. apply parses_fail.
    + apply complete_app, Hc.
    + rewrite frame_of_app; assumption.
Qed.

Lemma well_framed_parses b :
  well_framed b -> exists fs e r, parses b fs e r.
Proof.
  induction 1 as [b Hl|b Hs Hl|b Hc _ (fs & e & r & IH)].
  - exists [], Drained, b. apply parses_wait. left. exact Hl.
  - exists [], Drained, b. apply parses_wait. right. exact Hl.
  - destruct (frame_of b) as [resp|err] eqn:Hf.
    + exists (resp :: fs), e, r. apply parses_frame; assumption.
    + exists [], (Failed err), b. apply parses_fail; assumption.
Qed.

Lemma well_framed_prefix s :
  well_framed s -> forall b x, s = b ++ x -> well_framed b.
Proof.
  induction 1 as [s Hl|s Hs Hl|s Hc _ IH]; intros b x ->.
  - apply wf_prefix. rewrite length_app in Hl. lia.
  - destruct (Nat.lt_ge_cases (length b) 4) as [Hlt|Hge].
    + apply wf_prefix, Hlt.
    + rewrite size_field_app in * by exact Hge.
      rewrite length_app in Hl. apply wf_partial; lia.
  - destruct (Nat.lt_ge_cases (length b) 4) as [Hlt|Hge].
    { apply wf_prefix, Hlt. }
    pose proof Hc as [Hs Hl]. rewrite size_field_app in Hs, Hl by exact Hge.
    destruct (Z.lt_ge_cases (Z.of_nat (length b)) (4 + size_field b))
      as [Hlt|Hge'].
    { apply wf_partial; lia. }
    assert (Hcb : complete b) by (split; lia).
    apply wf_frame; [exact Hcb|].
    apply (IH (rest_of b) x). apply rest_of_app, Hcb.
Qed.

Lemma well_framed_rest b fs r x :
  parses b fs Drained r -> well_framed (b ++ x) -> well_framed (r ++ x).
Proof.
  intros H. remember Drained as e eqn:He. revert He.
  induction H as [b Hi|b resp fs e r Hc Hf _ IH|b err Hc Hf];
    intros He Hw; subst.
  - exact Hw.
  - apply IH; [reflexivity|].
    pose proof (complete_app b x Hc) as Hcx.
    pose proof (complete_length _ Hcx) as Hlen.
    inversion Hw as [s Hl|s Hs Hl|s _ Hrest]; subst.
    + lia.
    + destruct Hcx. lia.
    + rewrite rest_of_app in Hrest by exact Hc. exact Hrest.
  - discriminate.
Qed.

(** Reading chunk by chunk produces the frames of the whole stream. *)
Lemma read_chunks_parses (chunks : list bytes) :
  forall self : Reader,
    inv self -> incomplete (_buffer self) ->
    well_framed (_buffer self ++ concat chunks) ->
    exists fs e r,
      produced (read_chunks self chunks) = (fs, e)
      /\ parses (_buffer self ++ concat chunks) fs e r.
Proof.
  induction chunks as [|c cs IH]; intros self Hinv Hi Hw; simpl in *.
  - exists [], Drained, (_buffer self). split; [reflexivity|].
    rewrite app_nil_r. apply parses_wait, Hi.
  - assert (Hb : _buffer (feed self c) = _buffer self ++ c).
    { unfold feed. destruct c; [rewrite app_nil_r|]; reflexivity. }
    rewrite app_assoc in Hw. rewrite app_assoc.
    destruct (well_framed_parses (_buffer self ++ c)) as (fs1 & e1 & r1 & Hp).
    { eapply well_framed_prefix; [exact Hw|reflexivity]. }
    destruct (drain_parses _ _ _ _ Hp (feed self c)
                (S (length (_buffer (feed self c)))))
      as (self1 & Hd & Hb1 & Hinv1).
    { apply inv_feed, Hinv. }
    { exact Hb. }
    { rewrite Hb. lia. }
    unfold get_all. rewrite Hd.
    destruct e1 as [|err|].
    + destruct (IH self1) as (fs2 & e2 & r2 & Hr & Hp2).
      { exact Hinv1. }
      { rewrite Hb1. eapply parses_drained_incomplete, Hp. }
      { rewrite Hb1. eapply well_framed_rest; [exact Hp|exact Hw]. }
      exists (fs1 ++ fs2), e2, r2.
      destruct (read_chunks self1 cs) as [[r' fs'] e'].
      unfold produced in *. simpl in *. injection Hr as -> ->.
      split; [reflexivity|].
      rewrite Hb1 in Hp2. eapply parses_app; eassumption.
    + exists fs1, (Failed err), (r1 ++ concat cs).
      split; [reflexivity|]. apply parses_app_failed, Hp.
    + exfalso. eapply parses_finished; [exact Hp|reflexivity].
Qed.

(** ** Claims about the parser *)

(** What a call of [get] can do, in a state of the codec. *)
Lemma get_cases (self self' : Reader) (res : result (option schema)) :
  inv self -> get self = (self', res) ->
  let b := _buffer self in
  (res = Ok None /\ _buffer self' = b /\ incomplete b)
  \/ (exists resp, res = Ok (Some resp)
      /\ (4 <= length b)%nat /\ 4 + size_field b <= Z.of_nat (length b)
      /\ _buffer self' = slice_from b (4 + size_field b))
  \/ (exists e, res = Raise e /\ _buffer self' = b).
Proof.
  intros Hinv Hget. destruct self as [b h p]. simpl.
  assert (Hcase :
    ((length b < 4)%nat /\ h = false /\ get (mkReader b h p)
                                        = (mkReader b h p, Ok None))
    \/ ((4 <= length b)%nat
        /\ get (mkReader b h p) = get (mkReader b true (size_field b)))).
  { destruct (Nat.lt_ge_cases (length b) 4) as [Hlt|Hge].
    - left. assert (h = false) as ->.
      { destruct h; [|reflexivity]. destruct (Hinv eq_refl). simpl in *. lia. }
      repeat split; auto. unfold get. simpl.
      replace (consts.DATA_SIZE <=? Z.of_nat (length b)) with false
        by (symmetry; apply Z.leb_gt; unfold consts.DATA_SIZE; lia).
      reflexivity.
    - right. split; [exact Hge|]. destruct h.
      + destruct (Hinv eq_refl) as [_ Hp]. simpl in Hp. subst p. reflexivity.
      + unfold get. simpl.
        replace (consts.DATA_SIZE <=? Z.of_nat (length b)) with true
          by (symmetry; apply Z.leb_le; unfold consts.DATA_SIZE; lia).
        rewrite unpack_l_size by lia. reflexivity. }
  destruct Hcase as [(Hlt & -> & Hg)|(Hge & Hg)]; rewrite Hg in Hget.
  - injection Hget as <- <-. left. repeat split. left. exact Hlt.
  - unfold get in Hget. simpl in Hget.
    destruct (consts.DATA_SIZE + size_field b <=? Z.of_nat (length b)) eqn:Hc.
    + apply Z.leb_le in Hc. unfold consts.DATA_SIZE in Hc.
      match type of Hget with
      | context [match ?x with Ok _ => _ | Raise _ => _ end] =>
        destruct x as [resp|e]
      end; injection Hget as <- <-.
      * right. left. exists resp. repeat split; auto.
      * right. right. exists e. auto.
    + apply Z.leb_gt in Hc. unfold consts.DATA_SIZE in Hc.
      injection Hget as <- <-. left. repeat split. right. exact Hc.
Qed.

Lemma get_none_when_incomplete (self : Reader) :
  inv self -> incomplete (_buffer self) -> snd (get self) = Ok None.
Proof.
  intros Hinv Hi.
  destruct (get_incomplete self Hinv Hi) as (self' & -> & _). reflexivity.
Qed.

Lemma get_keeps_partial_frame (self : Reader) :
  inv self -> keeps_partial_frame self.
Proof.
  intros Hinv self' res Hget Hres.
  destruct (get_cases _ _ _ Hinv Hget) as [(_ & Hb & _)|[(resp & -> & _)|(e & _ & Hb)]];
    auto.
  destruct Hres as [Hres|[e Hres]]; discriminate Hres.
Qed.

Lemma get_consumes_whole_frame (self : Reader) :
  inv self -> 0 <= 4 + size_field (_buffer self) -> consumes_whole_frame self.
Proof.
  intros Hinv Hs self' resp Hget.
  destruct (get_cases _ _ _ Hinv Hget)
    as [(Hres & _)|[(resp' & _ & Hlen & Hl & Hb)|(e & Hres & _)]];
    try discriminate Hres.
  rewrite slice_from_inside in Hb by lia. rewrite Hb.
  split.
  - symmetry. apply firstn_skipn.
  - rewrite length_skipn. lia.
Qed.

(** C2 as it is stated fails: with the size prefix -5 and eight bytes in the
    buffer, [get] returns a frame and keeps the last byte of the buffer, so
    it drops seven bytes where [4 + size] is -1. *)
Lemma get_negative_size_not_whole_frame :
  reachable (new (Some inputs.negative_size))
  /\ get (new (Some inputs.negative_size))
     = (mkReader [x00] false 0,
        Ok (Some (NSQResponseSchema [] consts.FrameType.RESPONSE)))
  /\ size_field inputs.negative_size = -5
  /\ ~ consumes_whole_frame (new (Some inputs.negative_size)).
Proof.
  split; [apply reachable_new|].
  assert (Hget : get (new (Some inputs.negative_size))
                 = (mkReader [x00] false 0,
                    Ok (Some (NSQResponseSchema [] consts.FrameType.RESPONSE))))
    by (vm_compute; reflexivity).
  split; [exact Hget|]. split; [vm_compute; reflexivity|].
  intros H. destruct (H _ _ Hget) as [_ Hlen].
  vm_compute in Hlen. discriminate Hlen.
Qed.

(** C2, amended: in every state of the codec, a call of [get] returns at
    most one frame; it returns [None] and keeps the buffer when the buffer
    holds fewer than four bytes or fewer than [4 + size] bytes; when it
    returns no frame, or raises, the buffer is unchanged; and when it
    returns a frame and [4 + size] is not negative, it drops exactly the
    first [4 + size] bytes.  Fed [00 00 00 06 00 00 00 00], [get] returns
    [None]; fed [4F 4B] next, [get] returns the response with body [OK]. *)
Theorem get_at_most_one_whole_frame (self : Reader) :
  reachable self ->
  (incomplete (_buffer self) ->
   snd (get self) = Ok None /\ _buffer (fst (get self)) = _buffer self)
  /\ keeps_partial_frame self
  /\ (0 <= 4 + size_field (_buffer self) -> consumes_whole_frame self)
  /\ (let r := fst (get (feed (new None) inputs.ok_head)) in
      snd (get (feed (new None) inputs.ok_head)) = Ok None
      /\ get (feed r inputs.ok_tail)
         = (mkReader [] false 0,
            Ok (Some (NSQResponseSchema (bytes_of_string "OK")
                        consts.FrameType.RESPONSE)))).
Proof.
  intros Hr. pose proof (reachable_inv _ Hr) as Hinv.
  split; [|split; [|split]].
  - intros Hi. destruct (get_incomplete self Hinv Hi) as (self' & -> & Hb & _).
    auto.
  - apply get_keeps_partial_frame, Hinv.
  - apply get_consumes_whole_frame, Hinv.
  - vm_compute. auto.
Qed.

Lemma get_at_most_one_whole_frame_witness :
  (snd (get (new (Some inputs.ok_head))) = Ok None
   /\ _buffer (fst (get (new (Some inputs.ok_head)))) = inputs.ok_head)
  /\ (let self := new (Some (inputs.ok_head ++ inputs.ok_tail)) in
      _buffer self
      = firstn (Z.to_nat (4 + size_field (_buffer self))) (_buffer self)
        ++ _buffer (fst (get self))
      /\ Z.of_nat (length (_buffer self))
         = 4 + size_field (_buffer self)
           + Z.of_nat (length (_buffer (fst (get self))))).
Proof.
  split.
  - apply (get_at_most_one_whole_frame (new (Some inputs.ok_head))).
    + apply reachable_new.
    + right. vm_compute. reflexivity.
  - apply (get_at_most_one_whole_frame
             (new (Some (inputs.ok_head ++ inputs.ok_tail)))
             (reachable_new _))
      with (resp := NSQResponseSchema (bytes_of_string "OK")
                      consts.FrameType.RESPONSE).
    + vm_compute. discriminate.
    + vm_compute. reflexivity.
Defined.

(** ** Chunking *)

Lemma feed_all_concat (chunks : list bytes) (self : Reader) :
  feed_all self chunks = feed self (concat chunks).
Proof.
  revert self. induction chunks as [|c cs IH]; intros self; simpl.
  - reflexivity.
  - unfold feed_all in *. simpl. rewrite IH.
    destruct self as [b h p]. unfold feed.
    destruct c as [|c0 c]; [reflexivity|].
    destruct (concat cs) as [|d ds]; simpl.
    + rewrite app_nil_r. reflexivity.
    + rewrite <- app_assoc. reflexivity.
Qed.

Lemma read_chunks_one (self : Reader) (c : bytes) :
  produced (read_chunks self [c]) = produced (get_all (feed self c)).
Proof.
  simpl. destruct (get_all (feed self c)) as [[r fs] e].
  destruct e; unfold produced; simpl; rewrite ?app_nil_r; reflexivity.
Qed.

(** C1 as it is stated fails: of eight zero bytes fed four and four, the
    first [get] finds a size prefix of zero and no type field, and raises,
    so no frame is produced; fed at once, the first [get] reads the second
    four bytes as the type field and returns a response with an empty
    body. *)
Lemma chunking_changes_frames_of_zero_size :
  let chunks := [inputs.zero_size; inputs.zero_size] in
  fst (produced (read_chunks (new None) chunks)) = []
  /\ fst (produced (read_chunks (new None) [concat chunks]))
     = [NSQResponseSchema [] consts.FrameType.RESPONSE]
  /\ fst (produced (read_chunks (new None) chunks))
     <> fst (produced (read_chunks (new None) [concat chunks])).
Proof.
  vm_compute. repeat split. discriminate.
Qed.

(** C1, amended: feeding the chunks one by one gives the codec the buffer
    that feeding the whole stream gives it; and for a stream in which every
    size prefix is at least 4, feeding the chunks one by one with [get]
    called until [None] after each produces the frames, and the ending,
    that feeding the stream in one chunk produces. *)
Theorem chunking_of_well_framed_stream (chunks : list bytes) :
  feed_all (new None) chunks = feed (new None) (concat chunks)
  /\ (well_framed (concat chunks) ->
      produced (read_chunks (new None) chunks)
      = produced (read_chunks (new None) [concat chunks])
      /\ snd (produced (read_chunks (new None) chunks)) <> Unfinished).
Proof.
  split; [apply feed_all_concat|]. intros Hw.
  destruct (read_chunks_parses chunks (new None))
    as (fs & e & r & Hchunked & Hp).
  { apply inv_new. }
  { left. simpl. lia. }
  { exact Hw. }
  simpl in Hp. rewrite Hchunked. split.
  - assert (Hb : _buffer (feed (new None) (concat chunks)) = concat chunks).
    { unfold feed. destruct (concat chunks); reflexivity. }
    destruct (drain_parses _ _ _ _ Hp (feed (new None) (concat chunks))
                (S (length (_buffer (feed (new None) (concat chunks))))))
      as (self' & Hd & _).
    { apply inv_feed, inv_new. }
    { exact Hb. }
    { rewrite Hb. lia. }
    rewrite read_chunks_one. unfold get_all. rewrite Hd. reflexivity.
  - simpl. eapply parses_finished, Hp.
Qed.

Lemma chunking_of_well_framed_stream_witness :
  produced (read_chunks (new None) [inputs.ok_head; inputs.ok_tail])
  = produced (read_chunks (new None)
                [concat [inputs.ok_head; inputs.ok_tail]])
  /\ snd (produced (read_chunks (new None) [inputs.ok_head; inputs.ok_tail]))
     <> Unfinished.
Proof.
  apply (chunking_of_well_framed_stream [inputs.ok_head; inputs.ok_tail]).
  apply wf_frame.
  - split; vm_compute; discriminate.
  - apply wf_prefix. vm_compute. lia.
Defined.

(** ** Frame types *)

Lemma FrameType_members :
  enum.members consts.FrameType.class
  = [enum.Member "RESPONSE" 0; enum.Member "ERROR" 1; enum.Member "MESSAGE" 2].
Proof. vm_compute. reflexivity. Qed.

Lemma FrameType_call (v : Z) :
  enum.call consts.FrameType.class v =
  if 0 =? v then Ok consts.FrameType.RESPONSE
  else if 1 =? v then Ok consts.FrameType.ERROR
  else if 2 =? v then Ok consts.FrameType.MESSAGE
  else Raise (ValueError (pretty v ++ " is not a valid FrameType")).
Proof.
  unfold enum.call. rewrite FrameType_members. unfold enum.by_value.
  cbn [find enum.value].
  replace (enum.cls_name consts.FrameType.class) with "FrameType"%string
    by (vm_compute; reflexivity).
  destruct (0 =? v); [vm_compute; reflexivity|].
  destruct (1 =? v); [vm_compute; reflexivity|].
  destruct (2 =? v); [vm_compute; reflexivity|].
  reflexivity.
Qed.

Lemma unpack_l_type (b : bytes) :
  (8 <= length b)%nat ->
  unpack_l (slice b consts.DATA_SIZE consts.HEADER_SIZE) = Ok (type_field b).
Proof.
  intros H. unfold consts.HEADER_SIZE, consts.DATA_SIZE, consts.FRAME_SIZE.
  rewrite slice_inside by lia. unfold unpack_l, type_field.
  change (Z.to_nat (4 + 4 - 4)) with 4%nat. change (Z.to_nat 4) with 4%nat.
  rewrite firstn_length_le by (rewrite length_skipn; lia). reflexivity.
Qed.

Lemma unpack_response_body (b : bytes) (h : bool) :
  complete b ->
  _unpack_response (mkReader b h (size_field b)) (size_field b)
  = payload_body b.
Proof.
  intros Hc. pose proof (complete_length _ Hc). destruct Hc as [Hs Hl].
  unfold _unpack_response, payload_body. simpl.
  unfold consts.HEADER_SIZE, consts.DATA_SIZE, consts.FRAME_SIZE.
  rewrite slice_inside by lia.
  replace (4 + size_field b - (4 + 4)) with (size_field b - 4) by lia.
  reflexivity.
Qed.

(** C3 fails on the code: for a whole frame whose type field is not 0, 1 or
    2, [get] raises the [ValueError] of [FrameType(...)], before
    [_parse_payload] is called; it does not raise [ProtocolError]. *)
Theorem get_unknown_frame_type_raises_ValueError (self : Reader) :
  reachable self -> complete (_buffer self) ->
  type_field (_buffer self) <> 0 -> type_field (_buffer self) <> 1 ->
  type_field (_buffer self) <> 2 ->
  snd (get self)
  = Raise (ValueError (pretty (type_field (_buffer self))
                       ++ " is not a valid FrameType"))
  /\ forall msg, snd (get self) <> Raise (ProtocolError msg).
Proof.
  intros Hr Hc H0 H1 H2. pose proof (reachable_inv _ Hr) as Hinv.
  assert (Hget : snd (get self)
                 = Raise (ValueError (pretty (type_field (_buffer self))
                                      ++ " is not a valid FrameType"))).
  { rewrite (get_complete self Hinv Hc). unfold frame_of.
    rewrite unpack_l_type by (apply complete_length, Hc). simpl.
    rewrite FrameType_call.
    destruct (Z.eqb_spec 0 (type_field (_buffer self))); [congruence|].
    destruct (Z.eqb_spec 1 (type_field (_buffer self))); [congruence|].
    destruct (Z.eqb_spec 2 (type_field (_buffer self))); [congruence|].
    reflexivity. }
  split; [exact Hget|]. intros msg. rewrite Hget. discriminate.
Qed.

Lemma get_unknown_frame_type_raises_ValueError_witness :
  snd (get (new (Some inputs.unknown_type)))
  = Raise (ValueError "3 is not a valid FrameType")
  /\ forall msg,
       snd (get (new (Some inputs.unknown_type))) <> Raise (ProtocolError msg).
Proof.
  apply (get_unknown_frame_type_raises_ValueError
           (new (Some inputs.unknown_type))).
  - apply reachable_new.
  - split; vm_compute; discriminate.
  - vm_compute. discriminate.
  - vm_compute. discriminate.
  - vm_compute. discriminate.
Defined.

(** The last statement of [_parse_payload] is never reached from [get], in
    any state: [get] raises no [ProtocolError] at all. *)
Lemma parse_payload_never_ProtocolError (self : Reader) (v p : Z)
    (ft : enum.member) (msg : string) :
  enum.call consts.FrameType.class v = Ok ft ->
  _parse_payload self ft p <> Raise (ProtocolError msg).
Proof.
  rewrite FrameType_call. intros Hft.
  assert (Hcases : ft = consts.FrameType.RESPONSE
                   \/ ft = consts.FrameType.ERROR
                   \/ ft = consts.FrameType.MESSAGE).
  { destruct (0 =? v); [injection Hft; auto|].
    destruct (1 =? v); [injection Hft; auto|].
    destruct (2 =? v); [injection Hft; auto|discriminate]. }
  unfold _parse_payload.
  destruct Hcases as [->|[->| ->]].
  - replace (enum.eqb consts.FrameType.RESPONSE consts.FrameType.RESPONSE)
      with true by (vm_compute; reflexivity).
    discriminate.
  - replace (enum.eqb consts.FrameType.ERROR consts.FrameType.RESPONSE)
      with false by (vm_compute; reflexivity).
    replace (enum.eqb consts.FrameType.ERROR consts.FrameType.ERROR)
      with true by (vm_compute; reflexivity).
    unfold _unpack_error.
    destruct (split 1 (_unpack_response self p)) as [|c [|m [|x l]]];
      try discriminate.
    simpl. unfold new_NSQErrorSchema, decode_utf8.
    destruct (utf8_decode c); discriminate.
  - replace (enum.eqb consts.FrameType.MESSAGE consts.FrameType.RESPONSE)
      with false by (vm_compute; reflexivity).
    replace (enum.eqb consts.FrameType.MESSAGE consts.FrameType.ERROR)
      with false by (vm_compute; reflexivity).
    replace (enum.eqb consts.FrameType.MESSAGE consts.FrameType.MESSAGE)
      with true by (vm_compute; reflexivity).
    unfold _unpack_message, unpack_qh16s_s.
    destruct (_ <? 0); [discriminate|].
    destruct (negb _); [discriminate|].
    simpl. unfold new_NSQMessageSchema, decode_utf8.
    destruct (utf8_decode _); discriminate.
Qed.

Lemma get_never_ProtocolError (self : Reader) (msg : string) :
  snd (get self) <> Raise (ProtocolError msg).
Proof.
  assert (Hparsed : forall (s : Reader),
    snd (let parsed :=
           let* v := unpack_l (slice (_buffer s) consts.DATA_SIZE
                                 consts.HEADER_SIZE) in
           let* frame_type := enum.call consts.FrameType.class v in
           _parse_payload s frame_type (_payload_size s) in
         match parsed with
         | Raise e => (s, Raise e)
         | Ok resp =>
           (mkReader (slice_from (_buffer s)
                        (consts.DATA_SIZE + _payload_size s)) false 0,
            Ok (Some resp))
         end) <> Raise (ProtocolError msg)).
  { intros s. cbv zeta. unfold unpack_l.
    destruct (length _ =? 4)%nat; simpl; [|discriminate].
    destruct (enum.call _ _) as [ft|e] eqn:Hft; simpl.
    - pose proof (parse_payload_never_ProtocolError s _ (_payload_size s)
                    ft msg Hft) as Hp.
      destruct (_parse_payload s ft _); simpl; [discriminate|].
      intros H. apply Hp. injection H as ->. reflexivity.
    - rewrite FrameType_call in Hft.
      repeat match type of Hft with
             | context [if ?c then _ else _] => destruct c
             end; try discriminate Hft.
      injection Hft as <-. discriminate. }
  unfold get.
  match goal with |- context [if ?c then _ else Ok self] => destruct c end.
  - unfold unpack_l at 1.
    destruct (length _ =? 4)%nat; simpl bind; cbv iota; [|discriminate].
    match goal with |- context [if ?c then _ else (_, Ok None)] =>
      destruct c end; [|discriminate].
    apply Hparsed.
  - match goal with |- context [if ?c then _ else (_, Ok None)] =>
      destruct c end; [|discriminate].
    apply Hparsed.
Qed.

(** ** Message frames *)

Lemma payload_body_length (b : bytes) :
  complete b -> Z.of_nat (length (payload_body b)) = size_field b - 4.
Proof.
  intros Hc. pose proof (complete_length _ Hc). destruct Hc as [Hs Hl].
  unfold payload_body. rewrite firstn_length_le; [lia|].
  rewrite length_skipn. lia.
Qed.

Lemma slice_length {A} (l : list A) (i j : Z) :
  0 <= i -> i <= j -> j <= Z.of_nat (length l) ->
  Z.of_nat (length (slice l i j)) = j - i.
Proof.
  intros Hi Hij Hj. rewrite slice_inside by lia.
  rewrite firstn_length_le; [lia|]. rewrite length_skipn. lia.
Qed.

(** C4 fails on the code.  For a whole MESSAGE frame with room for the
    26-byte header and an id that decodes, [get] returns a message whose
    timestamp is the big-endian signed 64-bit integer of the first 8 bytes
    after the type field, whose id is the 16 bytes from offset 10, decoded,
    and whose body is the remaining [size - 4 - 26] bytes; but [attempts] is
    the big-endian SIGNED 16-bit integer of the bytes at offsets 8 and 9:
    when the field is 32768 or more as an unsigned integer, [attempts] is
    that value minus 65536, a negative number. *)
Theorem get_message_attempts_signed (self : Reader) (id : str) :
  reachable self -> complete (_buffer self) ->
  type_field (_buffer self) = 2 -> 30 <= size_field (_buffer self) ->
  utf8_decode (slice (payload_body (_buffer self)) 10 26) = Some id ->
  let body := payload_body (_buffer self) in
  let attempts := be_signed (slice body 8 10) in
  snd (get self)
  = Ok (Some (NSQMessageSchema (be_signed (slice body 0 8)) attempts id
                (slice body 26 (size_field (_buffer self) - 4))
                consts.FrameType.MESSAGE))
  /\ Z.of_nat (length (slice body 26 (size_field (_buffer self) - 4)))
     = size_field (_buffer self) - 4 - 26
  /\ (32768 <= be_unsigned (slice body 8 10) ->
      attempts = be_unsigned (slice body 8 10) - 65536 /\ attempts < 0).
Proof.
  intros Hr Hc Ht Hs Hid body attempts.
  pose proof (reachable_inv _ Hr) as Hinv.
  pose proof (payload_body_length _ Hc) as Hlen. fold body in Hlen, Hid.
  split; [|split].
  - rewrite (get_complete self Hinv Hc). unfold frame_of.
    rewrite unpack_l_type by (apply complete_length, Hc). simpl bind.
    rewrite FrameType_call, Ht. simpl bind.
    unfold _parse_payload.
    replace (enum.eqb consts.FrameType.MESSAGE consts.FrameType.RESPONSE)
      with false by (vm_compute; reflexivity).
    replace (enum.eqb consts.FrameType.MESSAGE consts.FrameType.ERROR)
      with false by (vm_compute; reflexivity).
    replace (enum.eqb consts.FrameType.MESSAGE consts.FrameType.MESSAGE)
      with true by (vm_compute; reflexivity).
    unfold _unpack_message.
    change (slice (_buffer (mkReader (_buffer self) true
                              (size_field (_buffer self))))
              consts.HEADER_SIZE
              (consts.DATA_SIZE + size_field (_buffer self)))
      with (_unpack_response
              (mkReader (_buffer self) true (size_field (_buffer self)))
              (size_field (_buffer self))).
    rewrite unpack_response_body by exact Hc. fold body.
    unfold unpack_qh16s_s.
    unfold consts.MSG_HEADER, consts.TIMESTAMP_SIZE, consts.ATTEMPTS_SIZE,
      consts.MSG_ID_SIZE, consts.HEADER_SIZE, consts.DATA_SIZE,
      consts.FRAME_SIZE.
    replace (4 + size_field (_buffer self) - (4 + 4) - (8 + 2 + 16))
      with (size_field (_buffer self) - 30) by lia.
    replace (size_field (_buffer self) - 30 <? 0) with false
      by (symmetry; apply Z.ltb_ge; lia).
    replace (Z.of_nat (length body)
             =? 8 + 2 + 16 + (size_field (_buffer self) - 30)) with true
      by (symmetry; apply Z.eqb_eq; lia).
    simpl negb. cbv iota. simpl bind.
    unfold new_NSQMessageSchema, decode_utf8. rewrite Hid. simpl.
    replace (26 + (size_field (_buffer self) - 30))
      with (size_field (_buffer self) - 4) by lia.
    reflexivity.
  - rewrite slice_length by lia. lia.
  - intros Hu. subst attempts. unfold be_signed.
    assert (Hl2 : Z.of_nat (length (slice body 8 10)) = 2)
      by (rewrite slice_length; lia).
    rewrite Hl2. change (2 ^ (8 * 2 - 1)) with 32768.
    change (2 ^ (8 * 2)) with 65536.
    destruct (Z.ltb_spec (be_unsigned (slice body 8 10)) 32768); [lia|].
    split; [reflexivity|].
    assert (Hb : forall bs : bytes,
               0 <= be_unsigned bs < 256 ^ Z.of_nat (length bs)).
    { intros bs. unfold be_unsigned.
      assert (Hgen : forall acc, 0 <= acc ->
                0 <= fold_left (fun a b => a * 256 + byte_val b) bs acc
                < (acc + 1) * 256 ^ Z.of_nat (length bs)).
      { induction bs as [|c bs IH]; intros acc Hacc; simpl fold_left.
        - simpl. lia.
        - assert (Hc8 : 0 <= byte_val c < 256).
          { unfold byte_val. pose proof (Byte.to_N_bounded c). lia. }
          specialize (IH (acc * 256 + byte_val c) ltac:(lia)).
          rewrite length_cons, Nat2Z.inj_succ, Z.pow_succ_r by lia.
          nia. }
      specialize (Hgen 0 ltac:(lia)). lia. }
    specialize (Hb (slice body 8 10)). rewrite Hl2 in Hb.
    change (256 ^ 2) with 65536 in Hb. lia.
Qed.

Lemma get_message_attempts_signed_witness :
  let self := new (Some inputs.message_attempts_8000) in
  let body := payload_body (_buffer self) in
  let attempts := be_signed (slice body 8 10) in
  (snd (get self)
   = Ok (Some (NSQMessageSchema (be_signed (slice body 0 8)) attempts
                 (str_of_string "0123456789abcdef")
                 (slice body 26 (size_field (_buffer self) - 4))
                 consts.FrameType.MESSAGE))
   /\ Z.of_nat (length (slice body 26 (size_field (_buffer self) - 4)))
      = size_field (_buffer self) - 4 - 26
   /\ (32768 <= be_unsigned (slice body 8 10) ->
       attempts = be_unsigned (slice body 8 10) - 65536 /\ attempts < 0))
  /\ be_unsigned (slice body 8 10) = 32768
  /\ attempts = -32768.
Proof.
  split; [|split; vm_compute; reflexivity].
  apply (get_message_attempts_signed (new (Some inputs.message_attempts_8000))).
  - apply reachable_new.
  - split; vm_compute; discriminate.
  - vm_compute. reflexivity.
  - vm_compute. discriminate.
  - vm_compute. reflexivity.
Defined.

(** ** The encoder *)

(** C5 as it is stated fails: the total length is not 14. *)
Lemma encode_mpub_total_is_not_14 :
  encode_command "MPUB" [VStr "t"] inputs.mpub_parts <> Ok inputs.mpub_total_14.
Proof. vm_compute. discriminate. Qed.

(** C5, amended: [encode_command("MPUB", "t", data=[b"a", b"bb"])] returns
    [MPUB t\n], then the total length 15 (the count field and the two
    prefixed parts: 4 + 5 + 6), the count 2, the length 1 and [a], the
    length 2 and [bb], every number as a big-endian int32. *)
Theorem encode_mpub_total_is_15 :
  encode_command "MPUB" [VStr "t"] inputs.mpub_parts = Ok inputs.mpub_total_15
  /\ inputs.mpub_total_15
     = bytes_of_string "MPUB t" ++ [x0a]
       ++ [x00; x00; x00; x0f] ++ [x00; x00; x00; x02]
       ++ [x00; x00; x00; x01] ++ bytes_of_string "a"
       ++ [x00; x00; x00; x02] ++ bytes_of_string "bb".
Proof. split; vm_compute; reflexivity. Qed.

(** ** The consumer *)

Lemma last_cons {A} (b d : A) (rest : list A) :
  List.last (b :: rest) d = List.last rest b.
Proof.
  revert b d. induction rest as [|c rest IH]; intros b d; [reflexivity|].
  change (List.last (b :: c :: rest) d) with (List.last (c :: rest) d).
  rewrite (IH c d), (IH c b). reflexivity.
Qed.

Lemma connect_loop_last (addresses : list (string * string))
    (conn : option reader.Connection) (opened : list reader.Connection) :
  reader.connect_loop addresses conn opened
  = (match addresses with
     | [] => conn
     | a :: rest =>
       let (host, port) := List.last rest a in
       Some (reader.prepare_conn (reader.create_connection host port))
     end,
     opened ++ map (fun a => reader.prepare_conn
                               (reader.create_connection (fst a) (snd a)))
                   addresses).
Proof.
  revert conn opened.
  induction addresses as [|[host port] rest IH]; intros conn opened.
  - simpl. rewrite app_nil_r. reflexivity.
  - cbn [reader.connect_loop]. rewrite IH. cbn [map fst snd].
    rewrite <- app_assoc. f_equal.
    destruct rest as [|b rest]; [reflexivity|].
    rewrite last_cons. reflexivity.
Qed.

(** Whatever the static addresses, the map of [connect] holds one
    connection: the one of the last address. *)
Lemma connect_stores_the_last_only (a : string * string)
    (rest lookupd : list (string * string)) :
  let self := reader.connect (reader.new (a :: rest) lookupd) in
  let conn := reader.prepare_conn
                (reader.create_connection (fst (List.last rest a))
                                          (snd (List.last rest a))) in
  reader._connections self = {[ reader.id conn := conn ]}
  /\ reader.rdy_connections (reader._rdy_control self)
     = {[ reader.id conn := conn ]}
  /\ length (reader.opened self) = length (a :: rest).
Proof.
  unfold reader.connect, reader.new.
  cbn [reader._nsqd_tcp_addresses reader.opened].
  rewrite connect_loop_last. destruct (List.last rest a) as [host port] eqn:Hlast.
  cbn [fst snd reader._connections reader._rdy_control reader.opened
       reader.rdy_connections reader.add_connections].
  split; [|split].
  - rewrite insert_empty. reflexivity.
  - rewrite insert_empty. apply map_eq. intros k.
    rewrite lookup_union, lookup_empty. destruct (_ !! k); reflexivity.
  - rewrite app_nil_l, length_map. reflexivity.
Qed.

(** C6 fails on the code: with the two addresses [a:4150] and [b:4150] and
    no lookupd address, [connect] opens two connections and stores one, the
    second; the first is neither in the map nor with the RDY controller. *)
Theorem connect_two_addresses_stores_one :
  let self := reader.connect (reader.new inputs.two_addresses []) in
  map reader.id (reader.opened self) = ["tcp://a:4150"; "tcp://b:4150"]%string
  /\ size (reader._connections self) = 1%nat
  /\ reader._connections self !! "tcp://a:4150"%string = None
  /\ reader.id <$> (reader._connections self !! "tcp://b:4150"%string)
     = Some "tcp://b:4150"%string
  /\ reader.rdy_connections (reader._rdy_control self)
       !! "tcp://a:4150"%string = None.
Proof.
  pose proof (connect_stores_the_last_only ("a", "4150")%string
                [("b", "4150")%string] []) as (Hc & Hr & _).
  cbv zeta in *. unfold inputs.two_addresses.
  rewrite Hc, Hr. cbn [List.last fst snd].
  split; [vm_compute; reflexivity|].
  split; [apply map_size_singleton|].
  split; [apply lookup_singleton_ne; vm_compute; discriminate|].
  split.
  - replace (reader.id _) with "tcp://b:4150"%string by (vm_compute; reflexivity).
    rewrite lookup_singleton_eq. vm_compute. reflexivity.
  - apply lookup_singleton_ne. vm_compute. discriminate.
Qed.

(** C10 as it is stated fails: the call raises nothing, and the flag is read
    when the generator is resumed, not when it is made.  On a consumer whose
    subscribe flag is false, [wait_messages()] and [messages()] return
    generators; resumed for the first time after [subscribe] has set the
    flag, the first yields a task and the second the message at the head of
    the queue. *)
Lemma generators_made_before_subscribe_yield :
  let unsubscribed :=
    reader.consumer_connect
      (reader.consumer_new [("127.0.0.1", "4150")%string] []) in
  let waiting := reader.wait_messages (reader.base unsubscribed) in
  let iterating := reader.messages (reader.base unsubscribed) in
  let subscribed :=
    reader.base (fst (reader.subscribe unsubscribed "topic" "channel" None)) in
  let m := NSQMessageSchema 1 1 (str_of_string "0123456789abcdef")
             (bytes_of_string "hi") consts.FrameType.MESSAGE in
  reader._is_subscribe (reader.base unsubscribed) = false
  /\ reader.wait_messages_resume subscribed waiting
     = (reader.AtYield, reader.Yield reader.QueueGetTask)
  /\ snd (reader.messages_resume (reader.set_queue subscribed [m]) iterating)
     = reader.Yield m.
Proof. vm_compute. repeat split. Qed.

(** C10, amended: [wait_messages()] and [messages()] raise nothing when they
    are called: each returns a generator.  Whatever the consumer was when
    the generator was made, if the subscribe flag is false when the
    generator is resumed for the first time, which is what iterating over
    it does first, the generator raises [ValueError] with the message [You
    must subscribe to the topic first]; it is finished by it, takes nothing
    from the queue and yields nothing, then or later, whatever the consumer
    becomes. *)
Theorem messages_resumed_before_subscribe_raise (made_on self : reader.Reader) :
  reader._is_subscribe self = false ->
  reader.wait_messages_resume self (reader.wait_messages made_on)
  = (reader.Finished,
     reader.Raised (ValueError "You must subscribe to the topic first"))
  /\ reader.messages_resume self (reader.messages made_on)
     = (self, reader.Finished,
        reader.Raised (ValueError "You must subscribe to the topic first"))
  /\ forall env n,
       reader.wait_messages_yields env n 0 self (reader.wait_messages made_on)
       = []
       /\ reader.messages_yields env n 0 self (reader.messages made_on) = [].
Proof.
  intros Hflag.
  assert (Hw : forall env n k s,
             reader.wait_messages_yields env n k s reader.Finished = []).
  { intros env n. induction n as [|n IH]; intros k s; simpl; auto. }
  assert (Hm : forall env n k s,
             reader.messages_yields env n k s reader.Finished = []).
  { intros env n. induction n as [|n IH]; intros k s; simpl; auto. }
  unfold reader.wait_messages, reader.messages,
    reader.wait_messages_resume, reader.messages_resume.
  rewrite Hflag. simpl. repeat split.
  - destruct n as [|n]; simpl; [reflexivity|]. rewrite Hflag. simpl. apply Hw.
  - destruct n as [|n]; simpl; [reflexivity|]. rewrite Hflag. simpl. apply Hm.
Qed.

Lemma messages_resumed_before_subscribe_raise_witness :
  let self := reader.new [("127.0.0.1", "4150")%string] [] in
  reader.wait_messages_resume self (reader.wait_messages self)
  = (reader.Finished,
     reader.Raised (ValueError "You must subscribe to the topic first"))
  /\ reader.messages_resume self (reader.messages self)
     = (self, reader.Finished,
        reader.Raised (ValueError "You must subscribe to the topic first"))
  /\ forall env n,
       reader.wait_messages_yields env n 0 self (reader.wait_messages self)
       = []
       /\ reader.messages_yields env n 0 self (reader.messages self) = [].
Proof.
  apply (messages_resumed_before_subscribe_raise
           (reader.new [("127.0.0.1", "4150")%string] [])
           (reader.new [("127.0.0.1", "4150")%string] [])).
  reflexivity.
Defined.

(** ** Connection states *)

(** C7 fails on the code: [CLOSED = 0] and [CLOSING = 0] make [CLOSING]
    another name of the member [CLOSED]; the two are equal, the class has
    five members, and [is_closing] holds of exactly the states of which
    [is_closed] holds. *)
Theorem CLOSING_is_CLOSED :
  consts.ConnectionStatus.CLOSING = consts.ConnectionStatus.CLOSED
  /\ enum.eqb consts.ConnectionStatus.CLOSED consts.ConnectionStatus.CLOSING
     = true
  /\ length (enum.members consts.ConnectionStatus.class) = 5%nat
  /\ forall s : enum.member,
       consts.ConnectionStatus.is_closing s
       = consts.ConnectionStatus.is_closed s.
Proof.
  assert (H : consts.ConnectionStatus.CLOSING = consts.ConnectionStatus.CLOSED)
    by (vm_compute; reflexivity).
  split; [exact H|]. split; [vm_compute; reflexivity|].
  split; [vm_compute; reflexivity|].
  intros s. unfold consts.ConnectionStatus.is_closing,
    consts.ConnectionStatus.is_closed. rewrite H. reflexivity.
Qed.

(** ** The lookupd client *)

Section perform_request_facts.

Context {JSON exc_class : Type}.
Variable json_document : string -> option JSON.
Variable HTTP_EXCEPTIONS : gmap Z exc_class.
Variable NsqHttpException : exc_class.

(** With a body that is JSON, a status outside 200..300 raises the class
    the table gives for it. *)
Lemma perform_request_json_error (r : http_base.response) (j : JSON) :
  http_base.json_loads JSON json_document (http_base.text r) = Some j ->
  ~ (200 <= http_base.status r <= 300) ->
  http_base.perform_request JSON json_document exc_class HTTP_EXCEPTIONS
    NsqHttpException (Some r)
  = inr (http_base.RaiseHttp JSON exc_class
           (default NsqHttpException
              (HTTP_EXCEPTIONS !! http_base.status r))
           (http_base.status r) (http_base.text r) (Some j)).
Proof.
  intros Hj Hs. unfold http_base.perform_request.
  rewrite Hj.
  destruct (Z.leb_spec 200 (http_base.status r));
    destruct (Z.leb_spec (http_base.status r) 300); simpl; try reflexivity.
  lia.
Qed.

(** With a body that is not JSON, the body is returned, whatever the
    status. *)
Lemma perform_request_not_json (r : http_base.response) :
  http_base.json_loads JSON json_document (http_base.text r) = None ->
  http_base.perform_request JSON json_document exc_class HTTP_EXCEPTIONS
    NsqHttpException (Some r)
  = inl (http_base.ReturnText JSON (http_base.text r)).
Proof.
  intros Hj. unfold http_base.perform_request.
  rewrite Hj. reflexivity.
Qed.

End perform_request_facts.

(** C8 fails on the code: an answer with status 404 whose body is an HTML
    page, which no JSON decoder accepts, makes [perform_request] return the
    body; nothing is raised, whatever the table of exception classes. *)
Theorem perform_request_404_not_json_returns
    (JSON exc_class : Type) (json_document : string -> option JSON)
    (HTTP_EXCEPTIONS : gmap Z exc_class) (NsqHttpException : exc_class) :
  http_base.status inputs.not_found_page = 404
  /\ http_base.perform_request JSON json_document exc_class HTTP_EXCEPTIONS
       NsqHttpException (Some inputs.not_found_page)
     = inl (http_base.ReturnText JSON "<html>404 page not found</html>").
Proof. split; reflexivity. Qed.

(** ** Error frames *)

Lemma lstrip_spec (s : bytes) :
  exists lead,
    s = lead ++ lstrip s /\ forallb isspace lead = true
    /\ match lstrip s with
       | [] => True
       | c :: _ => isspace c = false
       end.
Proof.
  induction s as [|c s (lead & Hs & Hl & Hh)]; simpl.
  - exists []. auto.
  - destruct (isspace c) eqn:Hc.
    + exists (c :: lead). simpl. rewrite Hc, Hl. rewrite <- Hs. auto.
    + exists []. simpl. auto.
Qed.

Lemma word_spec (s : bytes) :
  s = fst (word s) ++ snd (word s)
  /\ no_space (fst (word s)) = true
  /\ match snd (word s) with
     | [] => True
     | c :: _ => isspace c = true
     end
  /\ match s with
     | [] => True
     | c :: _ => isspace c = false -> fst (word s) <> []
     end.
Proof.
  induction s as [|c s (Hs & Hw & Hr & _)]; simpl.
  - auto.
  - destruct (isspace c) eqn:Hc; simpl.
    + rewrite Hc. repeat split; auto; discriminate.
    + destruct (word s) as [w r]. simpl in *. rewrite Hc, Hw. simpl.
      rewrite <- Hs. repeat split; auto; discriminate.
Qed.

Lemma lstrip_no_space (s : bytes) : no_space s = true -> lstrip s = s.
Proof.
  destruct s as [|c s]; simpl; [reflexivity|].
  destruct (isspace c); simpl; [discriminate|reflexivity].
Qed.

Lemma word_no_space (s : bytes) : no_space s = true -> word s = (s, []).
Proof.
  induction s as [|c s IH]; simpl; [reflexivity|].
  destruct (isspace c); simpl; [discriminate|].
  intros H. rewrite (IH H). reflexivity.
Qed.

(** A body without whitespace splits into at most one part. *)
Lemma split_no_space (s : bytes) :
  no_space s = true -> (length (split 1 s) <= 1)%nat.
Proof.
  intros H. destruct s as [|c s]; [simpl; lia|].
  change (split 1 (c :: s))
    with (match lstrip (c :: s) with
          | [] => []
          | r => let (w, rest) := word r in w :: split 0 rest
          end).
  rewrite (lstrip_no_space _ H), (word_no_space _ H). simpl. lia.
Qed.

(** A body that splits into two parts is the code, a separator of
    whitespace and the message, after leading whitespace. *)
Lemma split_two (s code msg : bytes) :
  split 1 s = [code; msg] ->
  exists lead sep,
    s = lead ++ code ++ sep ++ msg
    /\ forallb isspace lead = true
    /\ code <> [] /\ no_space code = true
    /\ sep <> [] /\ forallb isspace sep = true
    /\ msg <> [].
Proof.
  change (split 1 s)
    with (match lstrip s with
          | [] => []
          | r =>
            let (w, rest) := word r in
            w :: match lstrip rest with
                 | [] => []
                 | r' => [r']
                 end
          end).
  destruct (lstrip_spec s) as (lead & Hs & Hlead & Hhead).
  destruct (lstrip s) as [|c r] eqn:Hr; [discriminate|].
  destruct (word_spec (c :: r)) as (Hw & Hns & Hrest & Hne).
  destruct (word (c :: r)) as [w rest]. simpl fst in *. simpl snd in *.
  destruct (lstrip_spec rest) as (sep & Hrs & Hsep & Hmh).
  destruct (lstrip rest) as [|m ms] eqn:Hm; [discriminate|].
  intros Heq. injection Heq as <- <-.
  exists lead, sep. repeat split; auto.
  - rewrite Hs at 1. rewrite Hw at 1. rewrite Hrs at 1. reflexivity.
  - intros ->. destruct rest as [|x rest]; [discriminate|].
    simpl in Hrs. injection Hrs as -> ->. congruence.
Qed.

(** C9: for a whole ERROR frame whose body holds no whitespace, [get]
    raises [ValueError], for the two names [code, msg] cannot be bound to
    the at most one part of the body, and keeps the buffer; and when [get]
    returns an error schema for a whole ERROR frame, the body of the frame is
    the code, a separator of at least one whitespace byte and the message
    (after any leading whitespace). *)
Theorem get_error_frame_needs_separator (self : Reader) :
  reachable self -> complete (_buffer self) ->
  type_field (_buffer self) = 1 ->
  let body := payload_body (_buffer self) in
  (no_space body = true ->
   (length (split 1 body) <= 1)%nat
   /\ get self
      = (mkReader (_buffer self) true (size_field (_buffer self)),
         Raise (ValueError ("not enough values to unpack (expected 2, got "
                            ++ pretty (length (split 1 body)) ++ ")"))))
  /\ (forall code msg ft,
        snd (get self) = Ok (Some (NSQErrorSchema code msg ft)) ->
        exists lead c sep,
          body = lead ++ c ++ sep ++ msg
          /\ forallb isspace lead = true
          /\ c <> [] /\ no_space c = true /\ utf8_decode c = Some code
          /\ sep <> [] /\ forallb isspace sep = true
          /\ msg <> []).
Proof.
  intros Hr Hc Ht body. pose proof (reachable_inv _ Hr) as Hinv.
  assert (Hframe : frame_of (_buffer self) =
    match split 1 body with
    | [code; msg] => new_NSQErrorSchema code msg consts.FrameType.ERROR
    | parts =>
      Raise (ValueError ("not enough values to unpack (expected 2, got "
                         ++ pretty (length parts) ++ ")"))
    end).
  { unfold frame_of. rewrite unpack_l_type by (apply complete_length, Hc).
    simpl bind. rewrite FrameType_call, Ht. simpl bind.
    unfold _parse_payload.
    replace (enum.eqb consts.FrameType.ERROR consts.FrameType.RESPONSE)
      with false by (vm_compute; reflexivity).
    replace (enum.eqb consts.FrameType.ERROR consts.FrameType.ERROR)
      with true by (vm_compute; reflexivity).
    unfold _unpack_error. rewrite unpack_response_body by exact Hc.
    fold body. destruct (split 1 body) as [|c [|m [|x l]]]; reflexivity. }
  rewrite (get_complete self Hinv Hc), Hframe.
  split.
  - intros Hns. pose proof (split_no_space body Hns) as Hlen.
    split; [exact Hlen|].
    destruct (split 1 body) as [|c [|m l]]; simpl in Hlen; try lia;
      reflexivity.
  - intros code msg ft Hget.
    destruct (split 1 body) as [|c [|m [|x l]]] eqn:Hsplit;
      try discriminate Hget.
    unfold new_NSQErrorSchema, decode_utf8 in Hget.
    destruct (utf8_decode c) as [code'|] eqn:Hdec; simpl in Hget;
      [|discriminate Hget].
    injection Hget as -> -> _.
    destruct (split_two _ _ _ Hsplit)
      as (lead & sep & Hb & Hlead & Hcne & Hcns & Hsne & Hsep & Hmne).
    exists lead, c, sep. repeat split; auto.
Qed.

Lemma get_error_frame_needs_separator_witness :
  (let self := new (Some inputs.error_without_message) in
   (length (split 1 (payload_body (_buffer self))) <= 1)%nat
   /\ get self
      = (mkReader (_buffer self) true (size_field (_buffer self)),
         Raise (ValueError
                  ("not enough values to unpack (expected 2, got "
                   ++ pretty (length (split 1 (payload_body (_buffer self))))
                   ++ ")"))))
  /\ (let self := new (Some inputs.error_with_message) in
      exists lead c sep,
        payload_body (_buffer self)
        = lead ++ c ++ sep ++ bytes_of_string "not found"
        /\ forallb isspace lead = true
        /\ c <> [] /\ no_space c = true
        /\ utf8_decode c = Some (str_of_string "E_FIN_FAILED")
        /\ sep <> [] /\ forallb isspace sep = true
        /\ bytes_of_string "not found" <> []).
Proof.
  split.
  - apply (get_error_frame_needs_separator
             (new (Some inputs.error_without_message))).
    + apply reachable_new.
    + split; vm_compute; discriminate.
    + vm_compute. reflexivity.
    + vm_compute. reflexivity.
  - apply (get_error_frame_needs_separator
             (new (Some inputs.error_with_message)) (reachable_new _))
      with (ft := consts.FrameType.ERROR).
    + split; vm_compute; discriminate.
    + vm_compute. reflexivity.
    + vm_compute. reflexivity.
Defined.

(** * More about the code *)

(** ** The parser: frames by type *)

(** When the buffer holds the bytes its size prefix asks for, whatever the
    prefix, [get] parses the head of the buffer. *)
Lemma get_when_due (self : Reader) :
  inv self -> (4 <= length (_buffer self))%nat ->
  4 + size_field (_buffer self) <= Z.of_nat (length (_buffer self)) ->
  get self =
  match frame_of (_buffer self) with
  | Ok resp =>
    (mkReader (slice_from (_buffer self) (4 + size_field (_buffer self)))
       false 0,
     Ok (Some resp))
  | Raise e =>
    (mkReader (_buffer self) true (size_field (_buffer self)), Raise e)
  end.
Proof.
  intros Hinv Hlen Hdue. destruct self as [b h p]. simpl in *.
  assert (Hget : get (mkReader b h p) = get (mkReader b true (size_field b))).
  { destruct h.
    - destruct (Hinv eq_refl) as [_ Hp]. simpl in Hp. subst p. reflexivity.
    - unfold get. simpl.
      replace (consts.DATA_SIZE <=? Z.of_nat (length b)) with true
        by (symmetry; apply Z.leb_le; unfold consts.DATA_SIZE; lia).
      rewrite unpack_l_size by lia. reflexivity. }
  rewrite Hget. unfold get, frame_of. simpl.
  replace (consts.DATA_SIZE + size_field b <=? Z.of_nat (length b)) with true
    by (symmetry; apply Z.leb_le; unfold consts.DATA_SIZE; lia).
  reflexivity.
Qed.

Lemma frame_of_type (b : bytes) :
  (8 <= length b)%nat ->
  frame_of b =
  let* frame_type := enum.call consts.FrameType.class (type_field b) in
  _parse_payload (mkReader b true (size_field b)) frame_type (size_field b).
Proof.
  intros H. unfold frame_of. rewrite unpack_l_type by exact H. reflexivity.
Qed.

Lemma eqb_RESPONSE :
  enum.eqb consts.FrameType.RESPONSE consts.FrameType.RESPONSE = true.
Proof. vm_compute. reflexivity. Qed.

Lemma eqb_ERROR :
  enum.eqb consts.FrameType.ERROR consts.FrameType.RESPONSE = false
  /\ enum.eqb consts.FrameType.ERROR consts.FrameType.ERROR = true.
Proof. split; vm_compute; reflexivity. Qed.

Lemma eqb_MESSAGE :
  enum.eqb consts.FrameType.MESSAGE consts.FrameType.RESPONSE = false
  /\ enum.eqb consts.FrameType.MESSAGE consts.FrameType.ERROR = false
  /\ enum.eqb consts.FrameType.MESSAGE consts.FrameType.MESSAGE = true.
Proof. repeat split; vm_compute; reflexivity. Qed.

(** X1: for a whole RESPONSE frame at the head of the buffer, [get] returns
    a response whose body is the [size - 4] bytes after the type field,
    drops the frame and nothing else, and is ready for the next size
    prefix. *)
Theorem get_response_frame (self : Reader) :
  reachable self -> complete (_buffer self) ->
  type_field (_buffer self) = 0 ->
  get self
  = (mkReader (rest_of (_buffer self)) false 0,
     Ok (Some (NSQResponseSchema (payload_body (_buffer self))
                 consts.FrameType.RESPONSE)))
  /\ _buffer self
     = firstn 8 (_buffer self) ++ payload_body (_buffer self)
       ++ rest_of (_buffer self).
Proof.
  intros Hr Hc Ht. pose proof (reachable_inv _ Hr) as Hinv.
  pose proof (complete_length _ Hc) as Hlen.
  split.
  - rewrite (get_complete self Hinv Hc), frame_of_type by exact Hlen.
    rewrite Ht, FrameType_call. simpl bind. unfold _parse_payload.
    rewrite eqb_RESPONSE, unpack_response_body by exact Hc. reflexivity.
  - destruct Hc as [Hs Hl]. unfold payload_body, rest_of.
    set (b := _buffer self) in *.
    rewrite <- (firstn_skipn 8 b) at 1. f_equal.
    rewrite <- (firstn_skipn (Z.to_nat (size_field b - 4)) (skipn 8 b)) at 1.
    f_equal. rewrite skipn_skipn. f_equal. lia.
Qed.

Lemma get_response_frame_witness :
  get (new (Some (inputs.heartbeat ++ inputs.ok_head)))
  = (mkReader inputs.ok_head false 0,
     Ok (Some (NSQResponseSchema (bytes_of_string "_heartbeat_")
                 consts.FrameType.RESPONSE))).
Proof.
  apply (get_response_frame (new (Some (inputs.heartbeat ++ inputs.ok_head)))).
  - apply reachable_new.
  - split; vm_compute; discriminate.
  - vm_compute. reflexivity.
Defined.

(** ** The parser: what a failure leaves *)

(** X2: a frame that fails to parse is not skipped.  When [get] raises, the
    codec keeps the buffer and the size it has read, and the next [get]
    raises the same exception; when the buffer held the whole frame, so does
    every [get] after more bytes are fed. *)
Theorem get_failure_is_kept (self self' : Reader) (e : exn) :
  reachable self -> get self = (self', Raise e) ->
  self' = mkReader (_buffer self) true (size_field (_buffer self))
  /\ get self' = (self', Raise e)
  /\ (complete (_buffer self) ->
      forall chunk, get (feed self' chunk) = (feed self' chunk, Raise e)).
Proof.
  intros Hr Hget. pose proof (reachable_inv _ Hr) as Hinv.
  set (b := _buffer self) in *.
  destruct (Nat.lt_ge_cases (length b) 4) as [Hlt|Hge].
  { destruct (get_incomplete self Hinv (or_introl Hlt)) as (s & Hs & _).
    rewrite Hs in Hget. discriminate Hget. }
  destruct (Z.lt_ge_cases (Z.of_nat (length b)) (4 + size_field b))
    as [Hlt|Hdue].
  { destruct (get_incomplete self Hinv (or_intror Hlt)) as (s & Hs & _).
    rewrite Hs in Hget. discriminate Hget. }
  rewrite (get_when_due self Hinv Hge Hdue) in Hget. fold b in Hget.
  destruct (frame_of b) as [resp|err] eqn:Hf; [discriminate Hget|].
  injection Hget as <- <-.
  assert (Hinv' : inv (mkReader b true (size_field b))).
  { intros _. simpl. split; [lia|reflexivity]. }
  split; [reflexivity|]. split.
  - rewrite (get_when_due _ Hinv') by (simpl; lia). simpl. rewrite Hf.
    reflexivity.
  - intros Hc chunk.
    assert (Hfeed : feed (mkReader b true (size_field b)) chunk
                    = mkReader (b ++ chunk) true (size_field (b ++ chunk))).
    { rewrite size_field_app by lia. unfold feed. simpl.
      destruct chunk; [rewrite app_nil_r|]; reflexivity. }
    rewrite Hfeed. rewrite get_complete.
    + simpl. rewrite frame_of_app, Hf by exact Hc. reflexivity.
    + intros _. simpl. rewrite length_app. split; [lia|reflexivity].
    + simpl. apply complete_app, Hc.
Qed.

Lemma get_failure_is_kept_witness :
  let self' := mkReader inputs.unknown_type true 4 in
  get self' = (self', Raise (ValueError "3 is not a valid FrameType"))
  /\ forall chunk,
       get (feed self' chunk)
       = (feed self' chunk, Raise (ValueError "3 is not a valid FrameType")).
Proof.
  destruct (get_failure_is_kept (new (Some inputs.unknown_type))
              (mkReader inputs.unknown_type true 4)
              (ValueError "3 is not a valid FrameType"))
    as (_ & Hagain & Hfed).
  - apply reachable_new.
  - vm_compute. reflexivity.
  - split; [exact Hagain|]. apply Hfed. split; vm_compute; discriminate.
Defined.

(** X3: a size prefix below 4 is not refused.  With four to seven bytes in
    the buffer and a size prefix they already cover, [get] looks for the
    type field in bytes that have not arrived: it raises [struct.error] and
    keeps the buffer. *)
Theorem get_small_size_raises_struct_error (self : Reader) :
  reachable self ->
  (4 <= length (_buffer self) < 8)%nat ->
  4 + size_field (_buffer self) <= Z.of_nat (length (_buffer self)) ->
  get self
  = (mkReader (_buffer self) true (size_field (_buffer self)),
     Raise (struct_error "unpack requires a buffer of 4 bytes")).
Proof.
  intros Hr Hlen Hdue. pose proof (reachable_inv _ Hr) as Hinv.
  rewrite (get_when_due self Hinv) by lia.
  unfold frame_of.
  cbv [consts.HEADER_SIZE consts.DATA_SIZE consts.FRAME_SIZE].
  set (b := _buffer self) in *.
  assert (Hs : (length (slice b 4 (4 + 4)) < 4)%nat).
  { unfold slice, slice_index.
    change (4 <? 0) with false. change (4 + 4 <? 0) with false. cbv iota.
    rewrite length_firstn, length_skipn. lia. }
  unfold unpack_l. destruct (Nat.eqb_spec (length (slice b 4 (4 + 4))) 4);
    [lia|reflexivity].
Qed.

Lemma get_small_size_raises_struct_error_witness :
  get (new (Some inputs.size_one))
  = (mkReader inputs.size_one true 1,
     Raise (struct_error "unpack requires a buffer of 4 bytes")).
Proof.
  apply (get_small_size_raises_struct_error (new (Some inputs.size_one))).
  - apply reachable_new.
  - vm_compute. lia.
  - vm_compute. discriminate.
Defined.

(** X4: a size prefix of -4, or one so negative that [4 + size] counts back
    past the start of the buffer, followed by the type RESPONSE, makes [get]
    return a response with an empty body and drop nothing: the codec is as
    it was, and calling [get] until it returns [None] never ends. *)
Theorem get_negative_size_never_drains (b : bytes) :
  (8 <= length b)%nat -> type_field b = 0 ->
  size_field b = -4 \/ 4 + size_field b + Z.of_nat (length b) <= 0 ->
  get (new (Some b))
  = (new (Some b),
     Ok (Some (NSQResponseSchema [] consts.FrameType.RESPONSE)))
  /\ forall n,
       drain n (new (Some b))
       = (new (Some b),
          List.repeat (NSQResponseSchema [] consts.FrameType.RESPONSE) n,
          Unfinished).
Proof.
  intros Hlen Ht Hs.
  assert (Hnew : new (Some b) = mkReader b false 0).
  { unfold new, feed. destruct b; [simpl in Hlen; lia|reflexivity]. }
  assert (Hget : get (new (Some b))
                 = (new (Some b),
                    Ok (Some (NSQResponseSchema [] consts.FrameType.RESPONSE)))).
  { rewrite (get_when_due _ (inv_new _)); rewrite Hnew; simpl _buffer;
      try lia.
    rewrite frame_of_type by exact Hlen.
    rewrite Ht, FrameType_call. simpl bind. unfold _parse_payload.
    rewrite eqb_RESPONSE. unfold _unpack_response. simpl _buffer.
    cbv [consts.HEADER_SIZE consts.DATA_SIZE consts.FRAME_SIZE].
    assert (Hhi : slice_index (Z.of_nat (length b)) (4 + size_field b) = 0).
    { unfold slice_index.
      destruct (Z.ltb_spec (4 + size_field b) 0); lia. }
    assert (Hlo : slice_index (Z.of_nat (length b)) (4 + 4) = 8).
    { unfold slice_index. change (4 + 4 <? 0) with false. cbv iota. lia. }
    unfold slice, slice_from. rewrite Hhi, Hlo. reflexivity. }
  split; [exact Hget|].
  induction n as [|n IH]; [reflexivity|].
  cbn [drain List.repeat]. rewrite Hget, IH. reflexivity.
Qed.

Lemma get_negative_size_never_drains_witness :
  get (new (Some inputs.minus_four))
  = (new (Some inputs.minus_four),
     Ok (Some (NSQResponseSchema [] consts.FrameType.RESPONSE)))
  /\ forall n,
       drain n (new (Some inputs.minus_four))
       = (new (Some inputs.minus_four),
          List.repeat (NSQResponseSchema [] consts.FrameType.RESPONSE) n,
          Unfinished).
Proof.
  apply (get_negative_size_never_drains inputs.minus_four).
  - vm_compute. lia.
  - vm_compute. reflexivity.
  - left. vm_compute. reflexivity.
Defined.

(** ** The parser: the schema and the exception by frame type *)

Lemma FrameType_call_cases (v : Z) (ft : enum.member) :
  enum.call consts.FrameType.class v = Ok ft ->
  ft = consts.FrameType.RESPONSE \/ ft = consts.FrameType.ERROR
  \/ ft = consts.FrameType.MESSAGE.
Proof.
  rewrite FrameType_call. intros Hft.
  destruct (0 =? v); [injection Hft; auto|].
  destruct (1 =? v); [injection Hft; auto|].
  destruct (2 =? v); [injection Hft; auto|discriminate].
Qed.

Lemma parse_payload_outcome (s : Reader) (v p : Z) (ft : enum.member) :
  enum.call consts.FrameType.class v = Ok ft ->
  match _parse_payload s ft p with
  | Ok (NSQResponseSchema _ t) => t = consts.FrameType.RESPONSE
  | Ok (NSQErrorSchema _ _ t) => t = consts.FrameType.ERROR
  | Ok (NSQMessageSchema _ _ _ _ t) => t = consts.FrameType.MESSAGE
  | Raise e => parser_exception e
  end.
Proof.
  intros Hft. unfold _parse_payload, parser_exception.
  destruct (FrameType_call_cases _ _ Hft) as [->|[->| ->]].
  - rewrite eqb_RESPONSE. reflexivity.
  - destruct eqb_ERROR as [-> ->]. unfold _unpack_error.
    destruct (split 1 (_unpack_response s p)) as [|c [|m [|x l]]];
      simpl; eauto.
    unfold new_NSQErrorSchema, decode_utf8.
    destruct (utf8_decode c); simpl; auto.
  - destruct eqb_MESSAGE as (-> & -> & ->).
    unfold _unpack_message, unpack_qh16s_s.
    match goal with |- context [if ?c then _ else _] => destruct c end;
      simpl; eauto.
    match goal with |- context [if ?c then _ else _] => destruct c end;
      simpl; eauto.
    unfold new_NSQMessageSchema, decode_utf8.
    match goal with |- context [utf8_decode ?x] => destruct (utf8_decode x) end;
      simpl; auto.
Qed.

(** Where the result of [get] comes from, in any state. *)
Lemma get_outcome (self : Reader) :
  snd (get self) = Ok None
  \/ (exists m, snd (get self) = Raise (struct_error m))
  \/ (exists v m, enum.call consts.FrameType.class v = Raise (ValueError m)
                  /\ snd (get self) = Raise (ValueError m))
  \/ (exists s v ft p,
        enum.call consts.FrameType.class v = Ok ft
        /\ snd (get self)
           = match _parse_payload s ft p with
             | Ok f => Ok (Some f)
             | Raise e => Raise e
             end).
Proof.
  assert (Hparsed : forall (s : Reader) (r : result (option schema)),
    r = snd (let parsed :=
           let* v := unpack_l (slice (_buffer s) consts.DATA_SIZE
                                 consts.HEADER_SIZE) in
           let* frame_type := enum.call consts.FrameType.class v in
           _parse_payload s frame_type (_payload_size s) in
         match parsed with
         | Raise e => (s, Raise e)
         | Ok resp =>
           (mkReader (slice_from (_buffer s)
                        (consts.DATA_SIZE + _payload_size s)) false 0,
            Ok (Some resp))
         end) ->
    r = Ok None
    \/ (exists m, r = Raise (struct_error m))
    \/ (exists v m, enum.call consts.FrameType.class v = Raise (ValueError m)
                    /\ r = Raise (ValueError m))
    \/ (exists s v ft p,
          enum.call consts.FrameType.class v = Ok ft
          /\ r = match _parse_payload s ft p with
                 | Ok f => Ok (Some f)
                 | Raise e => Raise e
                 end)).
  { intros s r ->. cbv zeta. unfold unpack_l.
    destruct (length _ =? 4)%nat; simpl bind; [|simpl; eauto].
    destruct (enum.call _ _) as [ft|e] eqn:Hft; simpl bind.
    - right. right. right.
      exists s, (be_signed (slice (_buffer s) consts.DATA_SIZE
                              consts.HEADER_SIZE)), ft, (_payload_size s).
      split; [exact Hft|].
      destruct (_parse_payload s ft (_payload_size s)); reflexivity.
    - right. right. left. pose proof Hft as Hft'.
      rewrite FrameType_call in Hft'.
      repeat match type of Hft' with
             | context [if ?c then _ else _] => destruct c
             end; try discriminate Hft'.
      injection Hft' as <-. eauto. }
  remember (snd (get self)) as r eqn:Hr. unfold get in Hr.
  match type of Hr with
  | context [if ?c then _ else Ok self] => destruct c
  end.
  - unfold unpack_l at 1 in Hr.
    match type of Hr with
    | context [(length ?x =? 4)%nat] => destruct (length x =? 4)%nat
    end; simpl bind in Hr; cbv iota in Hr; [|simpl in Hr; eauto].
    match type of Hr with
    | context [if ?c then _ else (_, Ok None)] => destruct c
    end; [|auto].
    eapply Hparsed. exact Hr.
  - match type of Hr with
    | context [if ?c then _ else (_, Ok None)] => destruct c
    end; [|auto].
    eapply Hparsed. exact Hr.
Qed.

(** X5: in any state, an exception raised by [get] is a [struct.error], a
    [ValueError] or a [UnicodeDecodeError]: never the [ProtocolError] of its
    docstring, and never a [TypeError]. *)
Theorem get_raises_parser_exceptions (self : Reader) (e : exn) :
  snd (get self) = Raise e ->
  parser_exception e
  /\ (forall m, e <> ProtocolError m) /\ (forall m, e <> TypeError m).
Proof.
  intros Hget.
  assert (H : parser_exception e).
  { destruct (get_outcome self)
      as [H|[(m & H)|[(v & m & _ & H)|(s & v & ft & p & Hft & H)]]];
      rewrite H in Hget.
    - discriminate Hget.
    - injection Hget as <-. left. eauto.
    - injection Hget as <-. right. left. eauto.
    - pose proof (parse_payload_outcome s v p ft Hft) as Hp.
      destruct (_parse_payload s ft p); [discriminate Hget|].
      injection Hget as <-. exact Hp. }
  split; [exact H|].
  destruct H as [(m & ->)|[(m & ->)| ->]]; split; intros; discriminate.
Qed.

Lemma get_raises_parser_exceptions_witness :
  parser_exception (ValueError "3 is not a valid FrameType")
  /\ (forall m, ValueError "3 is not a valid FrameType" <> ProtocolError m)
  /\ (forall m, ValueError "3 is not a valid FrameType" <> TypeError m).
Proof.
  apply (get_raises_parser_exceptions (new (Some inputs.unknown_type))).
  vm_compute. reflexivity.
Defined.

(** X6: in any state, the schema [get] returns is of the class of its frame
    type: a plain response for RESPONSE, an error schema for ERROR, a
    message for MESSAGE; so exactly one of [is_response], [is_error] and
    [is_message] holds of it, and its truth value is [False] exactly when
    [is_error] holds. *)
Theorem get_schema_agrees_with_frame_type (self self' : Reader) (f : schema) :
  get self = (self', Ok (Some f)) ->
  match f with
  | NSQResponseSchema _ t => t = consts.FrameType.RESPONSE
  | NSQErrorSchema _ _ t => t = consts.FrameType.ERROR
  | NSQMessageSchema _ _ _ _ t => t = consts.FrameType.MESSAGE
  end
  /\ (is_response f, is_error f, is_message f)
     = match f with
       | NSQResponseSchema _ _ => (true, false, false)
       | NSQErrorSchema _ _ _ => (false, true, false)
       | NSQMessageSchema _ _ _ _ _ => (false, false, true)
       end
  /\ to_bool f = negb (is_error f).
Proof.
  intros Hget.
  assert (Hsnd : snd (get self) = Ok (Some f)) by (rewrite Hget; reflexivity).
  assert (H : match f with
              | NSQResponseSchema _ t => t = consts.FrameType.RESPONSE
              | NSQErrorSchema _ _ t => t = consts.FrameType.ERROR
              | NSQMessageSchema _ _ _ _ t => t = consts.FrameType.MESSAGE
              end).
  { destruct (get_outcome self)
      as [H|[(m & H)|[(v & m & _ & H)|(s & v & ft & p & Hft & H)]]];
      rewrite H in Hsnd; try discriminate Hsnd.
    pose proof (parse_payload_outcome s v p ft Hft) as Hp.
    destruct (_parse_payload s ft p); [|discriminate Hsnd].
    injection Hsnd as ->. exact Hp. }
  split; [exact H|].
  destruct f; subst; split; vm_compute; reflexivity.
Qed.

Lemma get_schema_agrees_with_frame_type_witness :
  let f := NSQErrorSchema (str_of_string "E_FIN_FAILED")
             (bytes_of_string "not found") consts.FrameType.ERROR in
  consts.FrameType.ERROR = consts.FrameType.ERROR
  /\ (is_response f, is_error f, is_message f) = (false, true, false)
  /\ to_bool f = negb (is_error f).
Proof.
  apply (get_schema_agrees_with_frame_type
           (new (Some inputs.error_with_message)) (mkReader [] false 0)
           (NSQErrorSchema (str_of_string "E_FIN_FAILED")
              (bytes_of_string "not found") consts.FrameType.ERROR)).
  vm_compute. reflexivity.
Defined.

(** ** The parser: error frames and message frames *)

Lemma lstrip_app_spaces (l x : bytes) :
  forallb isspace l = true -> lstrip (l ++ x) = lstrip x.
Proof.
  induction l as [|c l IH]; simpl; [reflexivity|].
  destruct (isspace c); simpl; [exact IH|discriminate].
Qed.

Lemma word_app (w rest : bytes) :
  no_space w = true ->
  match rest with
  | [] => True
  | c :: _ => isspace c = true
  end ->
  word (w ++ rest) = (w, rest).
Proof.
  intros Hw Hrest. induction w as [|c w IH]; simpl in *.
  - destruct rest as [|r rest]; [reflexivity|]. simpl. rewrite Hrest.
    reflexivity.
  - destruct (isspace c); simpl in Hw; [discriminate|].
    rewrite (IH Hw). reflexivity.
Qed.

(** The two parts of [code], whitespace, [message]. *)
Lemma split_code_message (lead code sep ms : bytes) (m : byte) :
  forallb isspace lead = true ->
  code <> [] -> no_space code = true ->
  sep <> [] -> forallb isspace sep = true ->
  isspace m = false ->
  split 1 (lead ++ code ++ sep ++ m :: ms) = [code; m :: ms].
Proof.
  intros Hlead Hcne Hcode Hsne Hsep Hm.
  change (split 1 (lead ++ code ++ sep ++ m :: ms))
    with (match lstrip (lead ++ code ++ sep ++ m :: ms) with
          | [] => []
          | r =>
            let (w, rest) := word r in
            w :: match lstrip rest with
                 | [] => []
                 | r' => [r']
                 end
          end).
  rewrite lstrip_app_spaces by exact Hlead.
  destruct code as [|c code]; [congruence|].
  assert (Hc : isspace c = false).
  { simpl in Hcode. destruct (isspace c); [discriminate|reflexivity]. }
  cbn [app lstrip]. rewrite Hc.
  change (c :: code ++ sep ++ m :: ms) with ((c :: code) ++ sep ++ m :: ms).
  rewrite word_app.
  - rewrite lstrip_app_spaces by exact Hsep. simpl. rewrite Hm. reflexivity.
  - exact Hcode.
  - destruct sep as [|s sep]; [congruence|]. simpl in *.
    destruct (isspace s); [reflexivity|discriminate].
Qed.

(** X7: for a whole ERROR frame whose body is a code without whitespace, at
    least one whitespace byte and a message (any leading whitespace put
    aside), [get] returns an error schema with the decoded code and, as
    body, the message from its first byte that is not whitespace to the end
    of the frame, trailing whitespace included; the frame is dropped. *)
Theorem get_error_frame (self : Reader) (lead code sep ms : bytes) (m : byte)
    (c : str) :
  reachable self -> complete (_buffer self) ->
  type_field (_buffer self) = 1 ->
  payload_body (_buffer self) = lead ++ code ++ sep ++ m :: ms ->
  forallb isspace lead = true ->
  code <> [] -> no_space code = true -> utf8_decode code = Some c ->
  sep <> [] -> forallb isspace sep = true ->
  isspace m = false ->
  get self
  = (mkReader (rest_of (_buffer self)) false 0,
     Ok (Some (NSQErrorSchema c (m :: ms) consts.FrameType.ERROR))).
Proof.
  intros Hr Hc Ht Hbody Hlead Hcne Hcode Hdec Hsne Hsep Hm.
  pose proof (reachable_inv _ Hr) as Hinv.
  rewrite (get_complete self Hinv Hc).
  rewrite frame_of_type by (apply complete_length, Hc).
  rewrite Ht, FrameType_call. simpl bind. unfold _parse_payload.
  destruct eqb_ERROR as [-> ->]. unfold _unpack_error.
  rewrite unpack_response_body by exact Hc. rewrite Hbody.
  rewrite split_code_message by assumption. simpl bind.
  unfold new_NSQErrorSchema, decode_utf8. rewrite Hdec. reflexivity.
Qed.

Lemma get_error_frame_witness :
  get (new (Some inputs.error_with_message))
  = (mkReader [] false 0,
     Ok (Some (NSQErrorSchema (str_of_string "E_FIN_FAILED")
                 (bytes_of_string "not found") consts.FrameType.ERROR))).
Proof.
  apply (get_error_frame (new (Some inputs.error_with_message)) []
           (bytes_of_string "E_FIN_FAILED") (bytes_of_string " ")
           (bytes_of_string "ot found") "n"%byte
           (str_of_string "E_FIN_FAILED")).
  - apply reachable_new.
  - split; vm_compute; discriminate.
  - vm_compute. reflexivity.
  - vm_compute. reflexivity.
  - reflexivity.
  - discriminate.
  - vm_compute. reflexivity.
  - vm_compute. reflexivity.
  - discriminate.
  - vm_compute. reflexivity.
  - vm_compute. reflexivity.
Defined.

(** A whole MESSAGE frame with room for the header and an id that
    decodes. *)
Lemma get_message_frame (self : Reader) (id : str) :
  inv self -> complete (_buffer self) ->
  type_field (_buffer self) = 2 -> 30 <= size_field (_buffer self) ->
  utf8_decode (slice (payload_body (_buffer self)) 10 26) = Some id ->
  let body := payload_body (_buffer self) in
  get self
  = (mkReader (rest_of (_buffer self)) false 0,
     Ok (Some (NSQMessageSchema (be_signed (slice body 0 8))
                 (be_signed (slice body 8 10)) id
                 (slice body 26 (size_field (_buffer self) - 4))
                 consts.FrameType.MESSAGE))).
Proof.
  intros Hinv Hc Ht Hs Hid body.
  pose proof (payload_body_length _ Hc) as Hlen. fold body in Hlen, Hid.
  rewrite (get_complete self Hinv Hc).
  rewrite frame_of_type by (apply complete_length, Hc).
  rewrite Ht, FrameType_call. simpl bind. unfold _parse_payload.
  destruct eqb_MESSAGE as (-> & -> & ->). unfold _unpack_message.
  change (slice (_buffer (mkReader (_buffer self) true
                            (size_field (_buffer self))))
            consts.HEADER_SIZE
            (consts.DATA_SIZE + size_field (_buffer self)))
    with (_unpack_response
            (mkReader (_buffer self) true (size_field (_buffer self)))
            (size_field (_buffer self))).
  rewrite unpack_response_body by exact Hc. fold body.
  unfold unpack_qh16s_s.
  cbv [consts.MSG_HEADER consts.TIMESTAMP_SIZE consts.ATTEMPTS_SIZE
       consts.MSG_ID_SIZE consts.HEADER_SIZE consts.DATA_SIZE
       consts.FRAME_SIZE].
  replace (4 + size_field (_buffer self) - (4 + 4) - (8 + 2 + 16))
    with (size_field (_buffer self) - 30) by lia.
  replace (size_field (_buffer self) - 30 <? 0) with false
    by (symmetry; apply Z.ltb_ge; lia).
  replace (Z.of_nat (length body)
           =? 8 + 2 + 16 + (size_field (_buffer self) - 30)) with true
    by (symmetry; apply Z.eqb_eq; lia).
  simpl negb. cbv iota. simpl bind.
  unfold new_NSQMessageSchema, decode_utf8. rewrite Hid. simpl.
  replace (26 + (size_field (_buffer self) - 30))
    with (size_field (_buffer self) - 4) by lia.
  reflexivity.
Qed.

(** X8: [is_heartbeat] looks at the body alone.  A whole MESSAGE frame whose
    body, after the 26 bytes of timestamp, attempts and id, is
    [_heartbeat_], comes out of [get] as a message of which [is_heartbeat]
    holds, like the server's heartbeat response. *)
Theorem get_message_with_heartbeat_body (self : Reader) (header : bytes)
    (id : str) :
  reachable self -> complete (_buffer self) ->
  type_field (_buffer self) = 2 ->
  payload_body (_buffer self) = header ++ bytes_of_string "_heartbeat_" ->
  length header = 26%nat ->
  utf8_decode (slice header 10 26) = Some id ->
  exists timestamp attempts,
    snd (get self)
    = Ok (Some (NSQMessageSchema timestamp attempts id
                  (bytes_of_string "_heartbeat_") consts.FrameType.MESSAGE))
    /\ is_message (NSQMessageSchema timestamp attempts id
                     (bytes_of_string "_heartbeat_") consts.FrameType.MESSAGE)
       = true
    /\ is_heartbeat (NSQMessageSchema timestamp attempts id
                       (bytes_of_string "_heartbeat_")
                       consts.FrameType.MESSAGE)
       = true.
Proof.
  intros Hr Hc Ht Hbody Hlen Hid.
  pose proof (reachable_inv _ Hr) as Hinv.
  pose proof (payload_body_length _ Hc) as Hsize.
  rewrite Hbody, length_app, Hlen in Hsize.
  change (length (bytes_of_string "_heartbeat_")) with 11%nat in Hsize.
  eexists _, _. split; [|split; vm_compute; reflexivity].
  rewrite (get_message_frame self id Hinv Hc Ht) by
    (try lia; rewrite Hbody, slice_app by lia; exact Hid).
  cbn [snd]. rewrite Hbody. do 4 f_equal.
  replace (size_field (_buffer self) - 4) with 37 by lia.
  rewrite slice_inside
    by (rewrite ?length_app, ?Hlen; simpl; lia).
  change (Z.to_nat 26) with 26%nat. rewrite <- Hlen.
  rewrite skipn_app, skipn_all, Nat.sub_diag. simpl.
  reflexivity.
Qed.

Lemma get_message_with_heartbeat_body_witness :
  exists timestamp attempts,
    snd (get (new (Some inputs.heartbeat_message)))
    = Ok (Some (NSQMessageSchema timestamp attempts
                  (str_of_string "0123456789abcdef")
                  (bytes_of_string "_heartbeat_") consts.FrameType.MESSAGE))
    /\ is_message (NSQMessageSchema timestamp attempts
                     (str_of_string "0123456789abcdef")
                     (bytes_of_string "_heartbeat_") consts.FrameType.MESSAGE)
       = true
    /\ is_heartbeat (NSQMessageSchema timestamp attempts
                       (str_of_string "0123456789abcdef")
                       (bytes_of_string "_heartbeat_")
                       consts.FrameType.MESSAGE)
       = true.
Proof.
  apply (get_message_with_heartbeat_body
           (new (Some inputs.heartbeat_message))
           ([x00; x00; x00; x00; x00; x00; x00; x01; x00; x01]
            ++ bytes_of_string "0123456789abcdef")).
  - apply reachable_new.
  - split; vm_compute; discriminate.
  - vm_compute. reflexivity.
  - vm_compute. reflexivity.
  - reflexivity.
  - vm_compute. reflexivity.
Defined.

(** X9: a whole MESSAGE frame whose size leaves no room for the 26 bytes of
    timestamp, attempts and id ([size] below 30) makes [get] raise
    [struct.error], for the length put in the format is negative; the
    buffer is kept. *)
Theorem get_short_message_raises_struct_error (self : Reader) :
  reachable self -> complete (_buffer self) ->
  type_field (_buffer self) = 2 -> size_field (_buffer self) < 30 ->
  get self
  = (mkReader (_buffer self) true (size_field (_buffer self)),
     Raise (struct_error "bad char in struct format")).
Proof.
  intros Hr Hc Ht Hs. pose proof (reachable_inv _ Hr) as Hinv.
  rewrite (get_complete self Hinv Hc).
  rewrite frame_of_type by (apply complete_length, Hc).
  rewrite Ht, FrameType_call. simpl bind. unfold _parse_payload.
  destruct eqb_MESSAGE as (-> & -> & ->).
  unfold _unpack_message, unpack_qh16s_s.
  cbv [consts.MSG_HEADER consts.TIMESTAMP_SIZE consts.ATTEMPTS_SIZE
       consts.MSG_ID_SIZE consts.HEADER_SIZE consts.DATA_SIZE
       consts.FRAME_SIZE].
  replace (4 + size_field (_buffer self) - (4 + 4) - (8 + 2 + 16) <? 0)
    with true by (symmetry; apply Z.ltb_lt; lia).
  reflexivity.
Qed.

Lemma get_short_message_raises_struct_error_witness :
  get (new (Some inputs.short_message))
  = (mkReader inputs.short_message true 12,
     Raise (struct_error "bad char in struct format")).
Proof.
  apply (get_short_message_raises_struct_error
           (new (Some inputs.short_message))).
  - apply reachable_new.
  - split; vm_compute; discriminate.
  - vm_compute. reflexivity.
  - vm_compute. reflexivity.
Defined.

(** ** The encoder: command line and body *)

Lemma join_empty (parts : list bytes) : join [] parts = concat parts.
Proof.
  induction parts as [|p [|q parts] IH]; simpl in *.
  - reflexivity.
  - rewrite app_nil_r. reflexivity.
  - rewrite IH. reflexivity.
Qed.

Lemma join_space (parts : list bytes) :
  parts <> [] ->
  bytes_of_string " " ++ join (bytes_of_string " ") parts
  = concat (map (fun a => bytes_of_string " " ++ a) parts).
Proof.
  induction parts as [|p [|q parts] IH]; intros Hne.
  - congruence.
  - simpl. rewrite app_nil_r. reflexivity.
  - change (join (bytes_of_string " ") (p :: q :: parts))
      with (p ++ bytes_of_string " " ++ join (bytes_of_string " ") (q :: parts)).
    rewrite IH by discriminate. reflexivity.
Qed.

(** The shape of [encode_command]: the command line, then the body. *)
Lemma encode_command_shape (cmd : string) (args : list value) (data : value)
    (body : result bytes) :
  body = match data with
         | VList parts =>
           if truthy data then
             let* data_encoded := map_result _encode_body parts in
             let num_parts := Z.of_nat (length data_encoded) in
             let* count := pack_l num_parts in
             let payload := count ++ join [] data_encoded in
             let* total := pack_l (Z.of_nat (length payload)) in
             Ok (total ++ payload)
           else Ok []
         | _ => if truthy data then _encode_body data else Ok []
         end ->
  encode_command cmd args data
  = let* line := encode_command cmd args VNone in
    let* body_data := body in
    Ok (line ++ body_data).
Proof.
  intros ->. unfold encode_command. simpl _convert_to_bytes. simpl bind.
  destruct (map_result _convert_to_bytes args) as [_args|e]; simpl bind;
    [|reflexivity].
  cbv zeta.
  match goal with
  | |- (let* b := ?x in _) = _ => destruct x as [b|e]
  end; simpl bind; [|reflexivity].
  simpl join. rewrite <- !app_assoc. reflexivity.
Qed.

(** X10: the command line.  Without a body, [encode_command] gives the
    command in upper case and stripped, then every argument behind one
    space, in order, then a newline; with no argument the newline follows
    the command at once.  An argument that cannot be converted makes it
    raise. *)
Theorem encode_command_line (cmd : string) (args : list value) :
  encode_command cmd args VNone
  = let* _args := map_result _convert_to_bytes args in
    Ok (bytes_of_string (strip (upper cmd))
        ++ concat (map (fun a => bytes_of_string " " ++ a) _args)
        ++ [x0a]).
Proof.
  unfold encode_command. simpl _convert_to_bytes. simpl bind.
  destruct (map_result _convert_to_bytes args) as [_args|e]; simpl bind;
    [|reflexivity].
  cbn [join]. do 2 f_equal.
  destruct _args as [|a _args]; [reflexivity|].
  change (negb (length (a :: _args) =? 0)%nat) with true. cbv iota.
  f_equal. exact (join_space (a :: _args) ltac:(discriminate)).
Qed.

(** X11: a body that counts as false (no body, an empty byte string, an
    empty text, the integer 0, an empty list of parts) is left out
    altogether: the command is encoded as without a body, with no length
    prefix. *)
Theorem encode_command_empty_body (cmd : string) (args : list value)
    (data : value) :
  truthy data = false ->
  encode_command cmd args data = encode_command cmd args VNone.
Proof.
  intros Hd. rewrite (encode_command_shape cmd args data (Ok [])).
  - destruct (encode_command cmd args VNone); simpl; [|reflexivity].
    rewrite app_nil_r. reflexivity.
  - destruct data; rewrite ?Hd; reflexivity.
Qed.

Lemma encode_command_empty_body_witness :
  encode_command "PUB" [VStr "t"] (VBytes [])
  = encode_command "PUB" [VStr "t"] VNone
  /\ encode_command "MPUB" [VStr "t"] (VList [])
     = encode_command "MPUB" [VStr "t"] VNone.
Proof.
  split.
  - apply (encode_command_empty_body "PUB" [VStr "t"] (VBytes [])).
    reflexivity.
  - apply (encode_command_empty_body "MPUB" [VStr "t"] (VList [])).
    reflexivity.
Defined.

Lemma pack_l_in_range (n : Z) :
  - 2 ^ 31 <= n < 2 ^ 31 -> pack_l n = Ok (be_bytes 4 n).
Proof.
  intros H. unfold pack_l.
  destruct (Z.leb_spec (- 2 ^ 31) n); [|lia].
  destruct (Z.ltb_spec n (2 ^ 31)); [reflexivity|lia].
Qed.

Lemma encode_body_bytes (p : bytes) :
  Z.of_nat (length p) < 2 ^ 31 -> _encode_body (VBytes p) = Ok (prefixed p).
Proof.
  intros H. unfold _encode_body. simpl.
  rewrite pack_l_in_range by lia. reflexivity.
Qed.

(** X12: a body of bytes that is not empty, shorter than 2^31 bytes, is
    appended to the command line behind its length as a big-endian int32:
    the encoding is the one without body, four bytes of length, the
    body. *)
Theorem encode_command_bytes_body (cmd : string) (args : list value)
    (data : bytes) :
  data <> [] -> Z.of_nat (length data) < 2 ^ 31 ->
  encode_command cmd args (VBytes data)
  = let* line := encode_command cmd args VNone in
    Ok (line ++ be_bytes 4 (Z.of_nat (length data)) ++ data).
Proof.
  intros Hne Hlen.
  rewrite (encode_command_shape cmd args (VBytes data) (Ok (prefixed data))).
  - reflexivity.
  - destruct data as [|x data]; [congruence|].
    change (truthy (VBytes (x :: data))) with true. cbv iota.
    rewrite encode_body_bytes by exact Hlen. reflexivity.
Qed.

Lemma encode_command_bytes_body_witness :
  encode_command "PUB" [VStr "t"] (VBytes (bytes_of_string "hi"))
  = let* line := encode_command "PUB" [VStr "t"] VNone in
    Ok (line ++ be_bytes 4 2 ++ bytes_of_string "hi").
Proof.
  apply (encode_command_bytes_body "PUB" [VStr "t"] (bytes_of_string "hi")).
  - discriminate.
  - vm_compute. reflexivity.
Defined.

Lemma parts_size_bounds (parts : list bytes) :
  4 * Z.of_nat (length parts) <= parts_size parts
  /\ Z.of_nat (length (concat (map prefixed parts))) = parts_size parts.
Proof.
  induction parts as [|p parts (Hn & Hlen)]; simpl parts_size.
  - split; [simpl; lia|reflexivity].
  - split.
    + rewrite length_cons. lia.
    + cbn [map concat]. rewrite length_app. unfold prefixed at 1.
      rewrite length_app.
      change (length (be_bytes 4 (Z.of_nat (length p)))) with 4%nat. lia.
Qed.

Lemma encode_parts (parts : list bytes) :
  parts_size parts < 2 ^ 31 ->
  map_result _encode_body (map VBytes parts) = Ok (map prefixed parts).
Proof.
  induction parts as [|p parts IH]; intros Hs; [reflexivity|].
  simpl parts_size in Hs.
  destruct (parts_size_bounds parts) as (Hn & _).
  simpl. rewrite encode_body_bytes by lia. simpl.
  rewrite IH by lia. reflexivity.
Qed.

(** X13: a list of parts that is not empty (a multiple publish), with a
    total below 2^31, is appended to the command line as: the count of the
    bytes that follow it, namely 4 for the number of parts and, for each
    part, 4 and its length; the number of parts; then each part behind its
    length; every number a big-endian int32. *)
Theorem encode_command_parts (cmd : string) (args : list value)
    (parts : list bytes) :
  parts <> [] -> 4 + parts_size parts < 2 ^ 31 ->
  encode_command cmd args (VList (map VBytes parts))
  = let* line := encode_command cmd args VNone in
    Ok (line ++ be_bytes 4 (4 + parts_size parts)
        ++ be_bytes 4 (Z.of_nat (length parts))
        ++ concat (map prefixed parts)).
Proof.
  intros Hne Hs.
  destruct (parts_size_bounds parts) as (Hn & Hlen).
  assert (Hpow : 0 < 2 ^ 31) by reflexivity.
  rewrite (encode_command_shape cmd args (VList (map VBytes parts))
             (Ok (be_bytes 4 (4 + parts_size parts)
                  ++ be_bytes 4 (Z.of_nat (length parts))
                  ++ concat (map prefixed parts)))).
  - reflexivity.
  - assert (Ht : truthy (VList (map VBytes parts)) = true)
      by (destruct parts; [congruence|reflexivity]).
    rewrite Ht, encode_parts by lia. cbn [bind].
    rewrite length_map, pack_l_in_range by lia. cbn [bind].
    rewrite join_empty, length_app, Nat2Z.inj_add, Hlen.
    change (Z.of_nat (length (be_bytes 4 (Z.of_nat (length parts)))))
      with 4.
    rewrite pack_l_in_range by lia. reflexivity.
Qed.

Lemma encode_command_parts_witness :
  encode_command "MPUB" [VStr "t"]
    (VList (map VBytes [bytes_of_string "a"; bytes_of_string "bb"]))
  = let* line := encode_command "MPUB" [VStr "t"] VNone in
    Ok (line ++ be_bytes 4 15 ++ be_bytes 4 2
        ++ concat (map prefixed [bytes_of_string "a"; bytes_of_string "bb"])).
Proof.
  apply (encode_command_parts "MPUB" [VStr "t"]
           [bytes_of_string "a"; bytes_of_string "bb"]).
  - discriminate.
  - vm_compute. reflexivity.
Defined.

(** ** The compressed codecs *)

Lemma feed_feed (self : Reader) (a b : bytes) :
  feed (feed self a) b = feed self (a ++ b).
Proof.
  destruct self as [buf h p]. unfold feed.
  destruct a as [|x a]; [reflexivity|].
  destruct b as [|y b]; simpl.
  - rewrite app_nil_r. reflexivity.
  - rewrite <- app_assoc. reflexivity.
Qed.

Section compressed.

Context {D C : Type}.
Variable decompress : D -> bytes -> D * bytes.

(** X14: a compressed codec is the plain codec behind the decompressor.
    After any chunks are fed, its parser is the parser it had, fed the
    outputs of the decompressor on the chunks that are not empty, one after
    the other; the compressor is untouched; and [get] returns what the
    plain [get] returns on that parser. *)
Theorem compress_feed_is_feed_of_decompressed
    (self : CompressReader D C) (chunks : list bytes) :
  let self' := fold_left (compress_feed D C decompress) chunks self in
  let outs := decompress_chunks D decompress (_decompressor D C self) chunks in
  _parser D C self' = feed (_parser D C self) (concat (snd outs))
  /\ _decompressor D C self' = fst outs
  /\ _compressor D C self' = _compressor D C self
  /\ snd (compress_get D C self')
     = snd (get (feed (_parser D C self) (concat (snd outs)))).
Proof.
  cbv zeta.
  assert (Hfeed : forall chunks self,
    _parser D C (fold_left (compress_feed D C decompress) chunks self)
    = feed (_parser D C self)
        (concat (snd (decompress_chunks D decompress
                        (_decompressor D C self) chunks)))
    /\ _decompressor D C (fold_left (compress_feed D C decompress) chunks self)
       = fst (decompress_chunks D decompress (_decompressor D C self) chunks)
    /\ _compressor D C (fold_left (compress_feed D C decompress) chunks self)
       = _compressor D C self).
  { clear. induction chunks as [|c chunks IH]; intros self.
    - simpl. auto.
    - destruct c as [|x c].
      + simpl. apply IH.
      + cbn [fold_left decompress_chunks].
        destruct (IH (compress_feed D C decompress self (x :: c)))
          as (Hp & Hd & Hc).
        rewrite Hp, Hd, Hc. unfold compress_feed.
        destruct (decompress (_decompressor D C self) (x :: c))
          as [d out] eqn:Hdec.
        cbn [_parser _decompressor _compressor].
        destruct (decompress_chunks D decompress d chunks) as [d' outs].
        cbn [fst snd concat]. repeat split.
        destruct out as [|y out]; [reflexivity|].
        apply feed_feed. }
  destruct (Hfeed chunks self) as (Hp & Hd & Hc).
  repeat split; auto.
  unfold compress_get. rewrite Hp.
  destruct (get (feed (_parser D C self) _)). reflexivity.
Qed.

End compressed.

(** ** The consumer: connections *)

(** X15: every message taken by [_on_message] lowers the [rdy_state] of its
    connection by exactly one and is returned as it is; nothing stops at
    zero: after [prepare_conn], which sets 2, and [n] messages, the state is
    [2 - n]. *)
Theorem on_message_lowers_rdy_state (conn : reader.Connection)
    (msgs : list schema) :
  reader.rdy_state
    (fold_left (fun c m => fst (reader._on_message c m)) msgs
               (reader.prepare_conn conn))
  = 2 - Z.of_nat (length msgs)
  /\ forall c m, snd (reader._on_message c m) = m.
Proof.
  split; [|reflexivity].
  assert (H : forall c,
    reader.rdy_state
      (fold_left (fun c m => fst (reader._on_message c m)) msgs c)
    = reader.rdy_state c - Z.of_nat (length msgs)).
  { induction msgs as [|m msgs IH]; intros c.
    - simpl. lia.
    - cbn [fold_left]. rewrite IH. rewrite length_cons. simpl. lia. }
  rewrite H. reflexivity.
Qed.

(** X16: [connect] opens one connection per static address, in the order of
    the addresses, and prepares each (its [rdy_state] is 2 and it has been
    identified); the status is CONNECTED afterwards exactly when there was
    an address. *)
Theorem connect_opens_every_address (addresses lookupd : list (string * string)) :
  let self := reader.connect (reader.new addresses lookupd) in
  reader.opened self
  = map (fun a => reader.prepare_conn
                    (reader.create_connection (fst a) (snd a))) addresses
  /\ Forall (fun c => reader.rdy_state c = 2 /\ reader.identified c = true)
            (reader.opened self)
  /\ reader._status self
     = match addresses with
       | [] => consts.ConnectionStatus.INIT
       | _ => consts.ConnectionStatus.CONNECTED
       end.
Proof.
  cbv zeta.
  assert (Ho : reader.opened (reader.connect (reader.new addresses lookupd))
               = map (fun a => reader.prepare_conn
                                 (reader.create_connection (fst a) (snd a)))
                     addresses
               /\ reader._status
                    (reader.connect (reader.new addresses lookupd))
                  = match addresses with
                    | [] => consts.ConnectionStatus.INIT
                    | _ => consts.ConnectionStatus.CONNECTED
                    end).
  { destruct addresses as [|a rest]; [split; reflexivity|].
    unfold reader.connect, reader.new.
    cbn [reader._nsqd_tcp_addresses reader.opened].
    rewrite connect_loop_last. destruct (List.last rest a) as [host port].
    split; reflexivity. }
  destruct Ho as [Ho Hs]. split; [exact Ho|]. split; [|exact Hs].
  rewrite Ho. apply Forall_forall. intros c Hc.
  apply list_elem_of_In, in_map_iff in Hc. destruct Hc as (a & <- & _).
  split; reflexivity.
Qed.

(** ** The consumer: discovery *)

Lemma poll_producer_keeps (self : reader.Reader) (p : reader.producer)
    (k : string) (c : reader.Connection) :
  reader._connections self !! k = Some c ->
  reader._connections (reader.poll_producer self p) !! k = Some c.
Proof.
  intros Hk. unfold reader.poll_producer.
  destruct (reader._connections self !! reader.producer_id p) eqn:Hp;
    [exact Hk|].
  cbn [reader._connections]. rewrite lookup_insert_ne; [exact Hk|].
  intros Heq. change (reader.id _) with (reader.producer_id p) in Heq.
  congruence.
Qed.

Lemma poll_producer_stores (self : reader.Reader) (p : reader.producer) :
  is_Some (reader._connections (reader.poll_producer self p)
             !! reader.producer_id p)
  /\ (reader._connections self !! reader.producer_id p = None ->
      reader._connections (reader.poll_producer self p)
        !! reader.producer_id p
      = Some (reader.create_connection (reader.broadcast_address p)
                (pretty (reader.tcp_port p)))).
Proof.
  unfold reader.poll_producer.
  destruct (reader._connections self !! reader.producer_id p) eqn:Hp.
  - split; [rewrite Hp; eauto|discriminate].
  - cbn [reader._connections].
    change (reader.id (reader.create_connection (reader.broadcast_address p)
                         (pretty (reader.tcp_port p))))
      with (reader.producer_id p).
    rewrite lookup_insert_eq. split; eauto.
Qed.

Lemma poll_producers_keep (ps : list reader.producer) (self : reader.Reader)
    (k : string) (c : reader.Connection) :
  reader._connections self !! k = Some c ->
  reader._connections (fold_left reader.poll_producer ps self) !! k = Some c.
Proof.
  revert self. induction ps as [|p ps IH]; intros self Hk; [exact Hk|].
  cbn [fold_left]. apply IH, poll_producer_keeps, Hk.
Qed.

Lemma poll_producers_present (ps : list reader.producer)
    (self : reader.Reader) :
  (forall p, In p ps ->
     is_Some (reader._connections self !! reader.producer_id p)) ->
  fold_left reader.poll_producer ps self = self.
Proof.
  revert self. induction ps as [|p ps IH]; intros self Hall; [reflexivity|].
  cbn [fold_left].
  assert (Hp : reader.poll_producer self p = self).
  { unfold reader.poll_producer.
    destruct (Hall p (or_introl eq_refl)) as [c ->]. reflexivity. }
  rewrite Hp. apply IH. intros q Hq. apply Hall. right. exact Hq.
Qed.

Lemma poll_lookupd_stores_every_producer_aux (self : reader.Reader)
    (producers : list reader.producer) :
  forall p, In p producers ->
    is_Some (reader._connections (fold_left reader.poll_producer producers self)
               !! reader.producer_id p).
Proof.
  revert self. induction producers as [|q ps IH]; intros self p Hin.
  - destruct Hin.
  - cbn [fold_left]. destruct Hin as [->|Hin]; [|apply IH, Hin].
    destruct (proj1 (poll_producer_stores self p)) as [c Hc].
    rewrite (poll_producers_keep ps _ _ c Hc). eauto.
Qed.

Lemma poll_producer_new (self : reader.Reader) (q : reader.producer)
    (k : string) (c : reader.Connection) :
  reader._connections self !! k = None ->
  reader._connections (reader.poll_producer self q) !! k = Some c ->
  k = reader.producer_id q
  /\ c = reader.create_connection (reader.broadcast_address q)
           (pretty (reader.tcp_port q)).
Proof.
  intros Hnone. unfold reader.poll_producer.
  destruct (reader._connections self !! reader.producer_id q) eqn:Hq.
  - rewrite Hnone. discriminate.
  - cbn [reader._connections].
    change (reader.id (reader.create_connection (reader.broadcast_address q)
                         (pretty (reader.tcp_port q))))
      with (reader.producer_id q).
    destruct (decide (reader.producer_id q = k)) as [<-|Hne].
    + rewrite lookup_insert_eq. intros [= <-]. auto.
    + rewrite lookup_insert_ne by exact Hne. rewrite Hnone. discriminate.
Qed.

(** X17: a lookup that answers makes [_poll_lookupd] store a connection for
    every producer of the answer, under [tcp://host:port], and keep every
    connection the map had; a connection the map did not have is the one
    [create_connection] returned for a producer of the answer, stored
    without [prepare_conn]. *)
Theorem poll_lookupd_stores_every_producer (self : reader.Reader)
    (producers : list reader.producer) :
  let self' := fst (reader._poll_lookupd self (Some producers)) in
  snd (reader._poll_lookupd self (Some producers)) = Ok tt
  /\ (forall p, In p producers ->
        is_Some (reader._connections self' !! reader.producer_id p))
  /\ (forall k c, reader._connections self !! k = Some c ->
        reader._connections self' !! k = Some c)
  /\ (forall k c, reader._connections self !! k = None ->
        reader._connections self' !! k = Some c ->
        exists p, In p producers /\ k = reader.producer_id p
          /\ c = reader.create_connection (reader.broadcast_address p)
                   (pretty (reader.tcp_port p))).
Proof.
  cbv zeta. cbn [reader._poll_lookupd fst snd].
  split; [reflexivity|]. split; [|split].
  - apply poll_lookupd_stores_every_producer_aux.
  - intros k c. apply poll_producers_keep.
  - revert self. induction producers as [|q ps IH]; intros self k c Hnone Hk.
    + cbn [fold_left] in Hk. congruence.
    + cbn [fold_left] in Hk.
      destruct (reader._connections (reader.poll_producer self q) !! k)
        as [c1|] eqn:Hq.
      * rewrite (poll_producers_keep ps _ _ c1 Hq) in Hk.
        injection Hk as <-.
        destruct (poll_producer_new self q k c1 Hnone Hq) as [-> ->].
        exists q. split; [left; reflexivity|]. auto.
      * destruct (IH _ k c Hq Hk) as (p & Hin & Hp).
        exists p. split; [right; exact Hin|exact Hp].
Qed.

(** X18: discovery adds nothing twice.  Polling again with the producers of
    the last answer opens no connection and changes nothing. *)
Theorem poll_lookupd_again_changes_nothing (self : reader.Reader)
    (producers : list reader.producer) :
  let self' := fst (reader._poll_lookupd self (Some producers)) in
  reader._poll_lookupd self' (Some producers) = (self', Ok tt).
Proof.
  cbv zeta.
  pose proof (poll_lookupd_stores_every_producer_aux self producers) as Hall.
  cbn [reader._poll_lookupd fst].
  rewrite (poll_producers_present producers _ Hall). reflexivity.
Qed.

(** ** The consumer: subscription, iteration and stop *)

(** X19: with lookupd addresses configured, a lookup that raises makes
    [subscribe] raise [UnboundLocalError], for [_poll_lookupd] logs the
    exception and then reads the answer it never got.  By then the topic,
    the channel and the subscribe flag are set; no [SUB] has been executed,
    no redistribution task started and no connection added; a generator of
    [messages()] resumed afterwards does not raise: it takes from the
    queue, or waits if the queue is empty. *)
Theorem subscribe_with_failed_lookup (self : reader.Consumer)
    (topic channel : string) :
  reader._lookupd_http_addresses (reader.base self) <> [] ->
  let self' := fst (reader.subscribe self topic channel None) in
  snd (reader.subscribe self topic channel None)
  = Raise (UnboundLocalError
             "local variable 'res' referenced before assignment")
  /\ reader.base self' = reader.set_is_subscribe (reader.base self) true
  /\ (reader.topic self', reader.channel self') = (Some topic, Some channel)
  /\ reader.subscribed self' = reader.subscribed self
  /\ reader._redistribute_task self' = reader._redistribute_task self
  /\ snd (reader.messages_resume (reader.base self')
            (reader.messages (reader.base self')))
     = match reader._queue (reader.base self) with
       | [] => reader.Pending
       | m :: _ => reader.Yield m
       end.
Proof.
  intros Hl. cbv zeta. unfold reader.subscribe.
  cbn [reader.set_is_subscribe reader._lookupd_http_addresses].
  destruct (reader._lookupd_http_addresses (reader.base self)) as [|a l];
    [congruence|].
  cbn [reader._poll_lookupd fst snd reader.base reader.topic reader.channel
       reader.subscribed reader._redistribute_task].
  repeat split.
  unfold reader.messages, reader.messages_resume, reader.messages_loop,
    reader.messages_await. simpl.
  destruct (reader._queue (reader.base self)); reflexivity.
Qed.

Lemma subscribe_with_failed_lookup_witness :
  let self' := fst (reader.subscribe inputs.lookupd_consumer "t" "c" None) in
  snd (reader.subscribe inputs.lookupd_consumer "t" "c" None)
  = Raise (UnboundLocalError
             "local variable 'res' referenced before assignment")
  /\ reader.base self'
     = reader.set_is_subscribe (reader.base inputs.lookupd_consumer) true
  /\ (reader.topic self', reader.channel self')
     = (Some "t"%string, Some "c"%string)
  /\ reader.subscribed self' = reader.subscribed inputs.lookupd_consumer
  /\ reader._redistribute_task self'
     = reader._redistribute_task inputs.lookupd_consumer
  /\ snd (reader.messages_resume (reader.base self')
            (reader.messages (reader.base self')))
     = reader.Pending.
Proof.
  apply (subscribe_with_failed_lookup inputs.lookupd_consumer "t" "c").
  discriminate.
Defined.

Lemma reachable_consumer_inv (self : reader.Consumer) :
  reader.reachable self ->
  reader._reconnect_task self = None /\ reader.rdy_stopped self = false.
Proof.
  induction 1 as [nsqd lookupd|self _ IH|self t c res _ IH|self _ IH].
  - split; reflexivity.
  - exact IH.
  - unfold reader.subscribe.
    match goal with
    | |- context [match ?x with (_, _) => _ end] => destruct x as [b [u|e]]
    end; exact IH.
  - unfold reader.stop. destruct IH as [-> Hs]. split; [reflexivity|exact Hs].
Qed.

(** X20: [stop] never gets to the connections.  On every consumer made by
    the constructor, [connect], [subscribe] and [stop], it clears the
    subscribe flag, cancels the redistribution task if there is one, and
    raises [AttributeError] at [self._reconnect_task.cancel()], a field no
    method assigns: no connection is closed or removed and the RDY
    controller is not stopped.  A generator suspended at its [yield] ends
    when it is resumed afterwards. *)
Theorem stop_raises_AttributeError (self : reader.Consumer) :
  reader.reachable self ->
  reader.stop self
  = (reader.mkConsumer
       (reader.set_is_subscribe (reader.base self) false)
       (reader.topic self) (reader.channel self)
       (match reader._redistribute_task self with
        | Some _ => Some reader.Cancelled
        | None => None
        end)
       None (reader.subscribed self) false,
     reader.RaisedAttributeError
       "'NoneType' object has no attribute 'cancel'")
  /\ reader._connections (reader.base (fst (reader.stop self)))
     = reader._connections (reader.base self)
  /\ reader.messages_resume (reader.base (fst (reader.stop self)))
       reader.AtYield
     = (reader.base (fst (reader.stop self)), reader.Finished, reader.Stop).
Proof.
  intros Hr. destruct (reachable_consumer_inv self Hr) as [Ht Hs].
  assert (Hstop : reader.stop self
    = (reader.mkConsumer
         (reader.set_is_subscribe (reader.base self) false)
         (reader.topic self) (reader.channel self)
         (match reader._redistribute_task self with
          | Some _ => Some reader.Cancelled
          | None => None
          end)
         None (reader.subscribed self) false,
       reader.RaisedAttributeError
         "'NoneType' object has no attribute 'cancel'")).
  { unfold reader.stop. rewrite Ht, Hs. reflexivity. }
  rewrite Hstop. split; [reflexivity|]. split; reflexivity.
Qed.

Lemma stop_raises_AttributeError_witness :
  snd (reader.stop inputs.subscribed_consumer)
  = reader.RaisedAttributeError "'NoneType' object has no attribute 'cancel'"
  /\ reader._redistribute_task (fst (reader.stop inputs.subscribed_consumer))
     = Some reader.Cancelled
  /\ reader._is_subscribe
       (reader.base (fst (reader.stop inputs.subscribed_consumer))) = false.
Proof.
  destruct (stop_raises_AttributeError inputs.subscribed_consumer)
    as (Hstop & _ & _).
  - unfold inputs.subscribed_consumer.
    apply reader.reachable_subscribe, reader.reachable_connect,
      reader.reachable_new.
  - rewrite Hstop. repeat split.
Defined.

Lemma messages_yields_queue (n k : nat) (self : reader.Reader)
    (st : reader.gen_state) :
  reader._is_subscribe self = true -> st <> reader.Finished ->
  reader.messages_yields (fun _ s => s) n k self st
  = firstn n (reader._queue self).
Proof.
  revert k self st. induction n as [|n IH]; intros k self st Hflag Hst;
    [reflexivity|].
  cbn [reader.messages_yields].
  assert (Hres : reader.messages_resume self st = reader.messages_await self).
  { unfold reader.messages_resume, reader.messages_loop.
    destruct st; rewrite ?Hflag; try reflexivity. congruence. }
  rewrite Hres. unfold reader.messages_await.
  destruct (reader._queue self) as [|m q] eqn:Hq.
  - rewrite IH by (auto; discriminate). rewrite Hq. destruct n; reflexivity.
  - rewrite IH by (auto; discriminate). reflexivity.
Qed.

(** X21: after [subscribe], whether it returned or raised, a generator of
    [messages()] yields the messages of the queue in the order they were
    put, each once, and takes them off the queue; resumed [n] times with
    nothing else running, it yields the first [n] of them, and when the
    queue is empty it waits without ending. *)
Theorem messages_after_subscribe_in_order (self : reader.Consumer)
    (topic channel : string) (res : option (list reader.producer)) (n : nat) :
  let self' := reader.base (fst (reader.subscribe self topic channel res)) in
  reader._queue self' = reader._queue (reader.base self)
  /\ reader.messages_yields (fun _ s => s) n 0 self' (reader.messages self')
     = firstn n (reader._queue (reader.base self))
  /\ (reader._queue self' = [] ->
      reader.messages_resume self' (reader.messages self')
      = (self', reader.AtAwait, reader.Pending)).
Proof.
  cbv zeta.
  assert (Hfold : forall ps s,
    reader._queue (fold_left reader.poll_producer ps s) = reader._queue s
    /\ reader._is_subscribe (fold_left reader.poll_producer ps s)
       = reader._is_subscribe s).
  { induction ps as [|p ps IH]; intros s; [split; reflexivity|].
    cbn [fold_left]. destruct (IH (reader.poll_producer s p)) as [-> ->].
    unfold reader.poll_producer.
    destruct (reader._connections s !! reader.producer_id p);
      split; reflexivity. }
  assert (Hsub :
    reader._queue (reader.base (fst (reader.subscribe self topic channel res)))
    = reader._queue (reader.base self)
    /\ reader._is_subscribe
         (reader.base (fst (reader.subscribe self topic channel res)))
       = true).
  { unfold reader.subscribe.
    cbn [reader.set_is_subscribe reader._lookupd_http_addresses].
    destruct (reader._lookupd_http_addresses (reader.base self)) as [|a l].
    - split; reflexivity.
    - destruct res as [ps|]; cbn [reader._poll_lookupd fst reader.base].
      + destruct (Hfold ps (reader.set_is_subscribe (reader.base self) true))
          as [-> ->]. split; reflexivity.
      + split; reflexivity. }
  destruct Hsub as [Hq Hflag]. split; [exact Hq|]. split.
  - rewrite messages_yields_queue by (auto; discriminate).
    rewrite Hq. reflexivity.
  - intros He. unfold reader.messages, reader.messages_resume,
      reader.messages_loop, reader.messages_await.
    rewrite Hflag, He. reflexivity.
Qed.

(** ** [create_reader] *)

(** X22: lookupd addresses come first.  When any is given, [create_reader]
    leaves the nsqd addresses out of the consumer, whatever they are, so
    that [connect] opens no connection and the consumer is returned in the
    state INIT with an empty map. *)
Theorem create_reader_lookupd_first (nsqd : option (list string))
    (lookupd : list (string * string)) :
  lookupd <> [] ->
  reader.create_reader nsqd lookupd = ([], Ok (reader.new [] lookupd))
  /\ reader._connections (reader.new [] lookupd) = ∅
  /\ reader._status (reader.new [] lookupd) = consts.ConnectionStatus.INIT.
Proof.
  intros Hl. destruct lookupd as [|a l]; [congruence|].
  repeat split.
Qed.

Lemma create_reader_lookupd_first_witness :
  reader.create_reader (Some ["10.0.0.1:4150"%string])
    [("127.0.0.1", "4161")%string]
  = ([], Ok (reader.new [] [("127.0.0.1", "4161")%string])).
Proof.
  apply (create_reader_lookupd_first (Some ["10.0.0.1:4150"%string])
           [("127.0.0.1", "4161")%string]).
  discriminate.
Defined.

Lemma unpack_pair_bad (parts : list string) :
  length parts <> 2%nat -> exists msg, reader.unpack_pair parts
                                       = Raise (ValueError msg).
Proof.
  intros H. destruct parts as [|a [|b [|c l]]]; simpl in *; eauto.
  congruence.
Qed.

Lemma unpack_pairs_stops (good : list string) (pairs : list (string * string))
    (bad : string) (rest : list string) (msg : string) :
  Forall2 (fun s hp => reader.split_on ":" s = [fst hp; snd hp]) good pairs ->
  reader.unpack_pair (reader.split_on ":" bad) = Raise (ValueError msg) ->
  reader.unpack_pairs (map (reader.split_on ":") (good ++ bad :: rest))
  = (pairs, Some (ValueError msg)).
Proof.
  intros Hgood Hbad. induction Hgood as [|s [h p] good pairs Hs _ IH].
  - simpl. rewrite Hbad. reflexivity.
  - cbn [app map reader.unpack_pairs]. rewrite Hs. cbn [fst snd].
    cbn [reader.unpack_pair]. rewrite IH. reflexivity.
Qed.

(** X23: an nsqd address that [split(':')] does not cut in exactly two (no
    colon, or more than one, as in an IPv6 address) makes [create_reader]
    raise [ValueError] when [connect] comes to it; the addresses before it
    have been connected to by then, and those connections are left open
    with no consumer to hold them. *)
Theorem create_reader_malformed_address (good : list string)
    (pairs : list (string * string)) (bad : string) (rest : list string) :
  Forall2 (fun s hp => reader.split_on ":" s = [fst hp; snd hp]) good pairs ->
  length (reader.split_on ":" bad) <> 2%nat ->
  exists msg,
    reader.create_reader (Some (good ++ bad :: rest)) []
    = (map (fun a => reader.prepare_conn
                       (reader.create_connection (fst a) (snd a))) pairs,
       Raise (ValueError msg)).
Proof.
  intros Hgood Hbad. destruct (unpack_pair_bad _ Hbad) as [msg Hmsg].
  exists msg. unfold reader.create_reader.
  change (default ["127.0.0.1:4150"%string] (Some (good ++ bad :: rest)))
    with (good ++ bad :: rest).
  rewrite (unpack_pairs_stops good pairs bad rest msg Hgood Hmsg).
  rewrite connect_loop_last. reflexivity.
Qed.

Lemma create_reader_malformed_address_witness :
  exists msg,
    reader.create_reader (Some ["a:4150"; "::1:4150"; "b:4150"]%string) []
    = ([reader.prepare_conn (reader.create_connection "a" "4150")],
       Raise (ValueError msg)).
Proof.
  apply (create_reader_malformed_address ["a:4150"%string]
           [("a", "4150")%string] "::1:4150" ["b:4150"%string]).
  - repeat constructor.
  - vm_compute. discriminate.
Defined.

(** ** Connection states, again *)

(** X24: [ConnectionStatus(v)] raises [ValueError] unless [v] is 0, 1, 2, 3
    or 4; otherwise it returns the member of value [v], and the truth value
    of that member is [True] exactly for 2, 3 and 4: CONNECTED, SUBSCRIBED
    and RECONNECTING count as usable, CLOSED (also named CLOSING) and INIT
    do not. *)
Theorem ConnectionStatus_call_and_bool (v : Z) :
  match enum.call consts.ConnectionStatus.class v with
  | Ok s =>
    0 <= v <= 4 /\ enum.value s = v
    /\ consts.ConnectionStatus.to_bool s = (2 <=? v)
  | Raise e =>
    (v < 0 \/ 4 < v)
    /\ e = ValueError (pretty v ++ " is not a valid ConnectionStatus")
  end.
Proof.
  unfold enum.call.
  replace (enum.members consts.ConnectionStatus.class)
    with [enum.Member "CLOSED" 0; enum.Member "INIT" 1;
          enum.Member "CONNECTED" 2; enum.Member "SUBSCRIBED" 3;
          enum.Member "RECONNECTING" 4] by (vm_compute; reflexivity).
  replace (enum.cls_name consts.ConnectionStatus.class)
    with "ConnectionStatus"%string by (vm_compute; reflexivity).
  unfold enum.by_value. cbn [find enum.value].
  destruct (Z.eqb_spec 0 v) as [<-|H0]; [vm_compute; intuition congruence|].
  destruct (Z.eqb_spec 1 v) as [<-|H1]; [vm_compute; intuition congruence|].
  destruct (Z.eqb_spec 2 v) as [<-|H2]; [vm_compute; intuition congruence|].
  destruct (Z.eqb_spec 3 v) as [<-|H3]; [vm_compute; intuition congruence|].
  destruct (Z.eqb_spec 4 v) as [<-|H4]; [vm_compute; intuition congruence|].
  split; [lia|reflexivity].
Qed.

(** ** The lookupd client, again *)

Section perform_request_outcome.

Context {JSON exc_class : Type}.
Variable loads : string -> http_base.loaded JSON.
Variable HTTP_EXCEPTIONS : gmap Z exc_class.
Variable NsqHttpException : exc_class.

(** Where [json.loads] returns or raises [ValueError], the two models of
    [perform_request] agree. *)
Lemma perform_request_loads_agrees (json_document : string -> option JSON)
    (r : http_base.response) :
  loads (http_base.text r)
  = match http_base.json_loads JSON json_document (http_base.text r) with
    | Some j => http_base.Decoded j
    | None => http_base.NotJSON
    end ->
  http_base.perform_request_loads JSON loads exc_class HTTP_EXCEPTIONS
    NsqHttpException (Some r)
  = match http_base.perform_request JSON json_document exc_class
            HTTP_EXCEPTIONS NsqHttpException (Some r) with
    | inl v => http_base.Returns JSON exc_class v
    | inr (http_base.RaiseHttp _ _ cls st body extra) =>
      http_base.RaisesHttp JSON exc_class cls st body extra
    | inr (http_base.RaiseOther _ _ _) =>
      http_base.RaisesUnboundLocalError JSON exc_class
    end.
Proof.
  intros Hl.
  unfold http_base.perform_request_loads, http_base.perform_request.
  rewrite Hl.
  destruct (http_base.json_loads JSON json_document (http_base.text r));
    [|reflexivity].
  destruct (negb _); reflexivity.
Qed.

(** X25: for an answer of the server, [perform_request] raises the HTTP
    error exactly when [json.loads] returns a value for the body and the
    status is below 200 or above 300; the error is then of the class the
    table has for the status, or [NsqHttpException], and carries the status,
    the body and, as [extra], the value [json.loads] returned (Python's
    [None] only for the body [null]).  With a decoded body and a status from
    200 to 300, 300 included, the decoded body is returned.  An exception of
    [json.loads] other than [ValueError] goes through, whatever the
    status. *)
Theorem perform_request_http_error_iff (r : http_base.response) :
  let out := http_base.perform_request_loads JSON loads exc_class
               HTTP_EXCEPTIONS NsqHttpException (Some r) in
  (forall cls st body extra,
     out = http_base.RaisesHttp JSON exc_class cls st body extra
     <-> exists j,
           loads (http_base.text r) = http_base.Decoded j
           /\ (http_base.status r < 200 \/ 300 < http_base.status r)
           /\ cls = default NsqHttpException
                      (HTTP_EXCEPTIONS !! http_base.status r)
           /\ st = http_base.status r /\ body = http_base.text r
           /\ extra = Some j)
  /\ (forall j,
        loads (http_base.text r) = http_base.Decoded j ->
        200 <= http_base.status r <= 300 ->
        out = http_base.Returns JSON exc_class (http_base.ReturnJSON JSON j))
  /\ (forall x,
        out = http_base.RaisesFromLoads JSON exc_class x
        <-> loads (http_base.text r) = http_base.LoadsRaised x).
Proof.
  cbv zeta. unfold http_base.perform_request_loads.
  destruct (loads (http_base.text r)) as [j| |x] eqn:Hl.
  - destruct (Z.leb_spec 200 (http_base.status r)) as [H2|H2];
      destruct (Z.leb_spec (http_base.status r) 300) as [H3|H3];
      cbn [andb negb].
    + split; [|split].
      * intros cls st body extra. split; [discriminate|].
        intros (j' & _ & [?|?] & _); lia.
      * intros j' [= <-] _. reflexivity.
      * intros x. split; discriminate.
    + split; [|split].
      * intros cls st body extra. split.
        -- intros [= <- <- <- <-]. exists j. repeat split; auto.
        -- intros (j' & [= <-] & _ & -> & -> & -> & ->). reflexivity.
      * intros j' _ ?. lia.
      * intros x. split; discriminate.
    + split; [|split].
      * intros cls st body extra. split.
        -- intros [= <- <- <- <-]. exists j. repeat split; auto.
        -- intros (j' & [= <-] & _ & -> & -> & -> & ->). reflexivity.
      * intros j' _ ?. lia.
      * intros x. split; discriminate.
    + lia.
  - split; [|split].
    + intros cls st body extra. split; [discriminate|].
      intros (j' & Hj & _). discriminate Hj.
    + intros j' Hj. discriminate Hj.
    + intros x. split; discriminate.
  - split; [|split].
    + intros cls st body extra. split; [discriminate|].
      intros (j' & Hj & _). discriminate Hj.
    + intros j' Hj. discriminate Hj.
    + intros y. split; intros [= <-]; reflexivity.
Qed.

End perform_request_outcome.
